(** * Proxy entitlements connector: a shallow embedding and its properties

    The development follows the connector's sources:
    - [parseName], the [Entitlement] constructor and [Entitlement.buildParent]
      (the entitlement model);
    - [getSourceEntitlements], [createAccessRequest], [stdAccountList],
      [stdEntitlementList], [stdAccountCreate] and [stdAccountUpdate]
      (the handlers of index.ts);
    - the methods of [ISCClient] (isc-client.ts), which are the connector's
      only way to the identity platform and appear here as calls answered
      by a platform oracle.

    Handlers are asynchronous but strictly sequential (every call is awaited
    before the next statement runs), so a handler is a function from the
    history of interactions so far to an outcome and the extended history.
    Logging has no effect on control flow and is left out. *)

From Stdlib Require Import String Ascii List Bool Arith NArith Lia.
From Stdlib Require Import Permutation.
Import ListNotations.
Local Open Scope string_scope.
Local Open Scope list_scope.

(* ------------------------------------------------------------------ *)
(** ** JavaScript strings and arrays *)

(** [Boolean(s)] on a string: only the empty string is falsy. *)
Definition truthy (s : string) : bool := negb (String.eqb s "").

(** [s.split(sep)] for a one-character separator: never an empty array,
    [''.split('-')] is [['']]. *)
Fixpoint split (sep : ascii) (s : string) : list string :=
  match s with
  | EmptyString => [EmptyString]
  | String c rest =>
      if Ascii.eqb c sep then EmptyString :: split sep rest
      else match split sep rest with
           | [] => [String c EmptyString]
           | seg :: segs => String c seg :: segs
           end
  end.

(** [arr.join(sep)]. *)
Fixpoint join (sep : string) (l : list string) : string :=
  match l with
  | [] => ""
  | [x] => x
  | x :: rest => (x ++ sep ++ join sep rest)%string
  end.

(** [arr.pop()]: the last element ([None] for [undefined]) and the array
    that is left. *)
Fixpoint pop (l : list string) : option string * list string :=
  match l with
  | [] => (None, [])
  | [x] => (Some x, [])
  | x :: rest => let (r, rest') := pop rest in (r, x :: rest')
  end.

(** [v ?? ''] *)
Definition or_empty (v : option string) : string :=
  match v with Some s => s | None => "" end.

(** The values that meet in a comparison: strings, compared by content,
    and objects, compared by reference. *)
Inductive JsValue :=
| JsString (s : string)
| JsObject (ref : nat).

(** SameValueZero, the comparison of [includes]. *)
Definition same_value_zero (a b : JsValue) : bool :=
  match a, b with
  | JsString x, JsString y => String.eqb x y
  | JsObject r, JsObject r' => Nat.eqb r r'
  | _, _ => false
  end.

(** [arr.includes(x)] *)
Definition includes (arr : list JsValue) (x : JsValue) : bool :=
  existsb (same_value_zero x) arr.

(** [arr.every(p)] *)
Definition every {A : Type} (p : A -> bool) (arr : list A) : bool :=
  forallb p arr.

(** The objects of an array together with their references: an object is
    identified by its position in the array it was read into. *)
Definition with_refs {A : Type} (arr : list A) : list (nat * A) :=
  combine (seq 0 (List.length arr)) arr.

(** A [Set<string>]: insertion ordered, [add] of a present element does
    nothing. [Array.from(set)] is the list itself. *)
Definition set_has (s : list string) (x : string) : bool :=
  existsb (String.eqb x) s.

Definition set_add (x : string) (s : list string) : list string :=
  if set_has s x then s else s ++ [x].

(** A [Map<string, V>]: insertion ordered; [set] on a present key replaces
    the value in place, [get] returns the value of the key. *)
Section JsMap.
Context {V : Type}.

Fixpoint map_get (k : string) (m : list (string * V)) : option V :=
  match m with
  | [] => None
  | (k', v) :: rest => if String.eqb k k' then Some v else map_get k rest
  end.

Definition map_has (k : string) (m : list (string * V)) : bool :=
  match map_get k m with Some _ => true | None => false end.

Fixpoint map_set (k : string) (v : V) (m : list (string * V)) : list (string * V) :=
  match m with
  | [] => [(k, v)]
  | (k', v') :: rest =>
      if String.eqb k k' then (k', v) :: rest else (k', v') :: map_set k v rest
  end.

(** Mutation of the object stored under [k] through a reference to it. *)
Fixpoint map_adjust (k : string) (f : V -> V) (m : list (string * V)) : list (string * V) :=
  match m with
  | [] => []
  | (k', v) :: rest =>
      if String.eqb k k' then (k', f v) :: rest else (k', v) :: map_adjust k f rest
  end.
End JsMap.

(* ------------------------------------------------------------------ *)
(** ** The entitlement model *)

Record ParsedName := {
  product : string;
  environment : string;
  role : string
}.

(** [parseName]: split on hyphens, drop the falsy (empty) parts, pop
    role, environment and product off the end. [None] is [undefined]. *)
Definition parseName (name : option string) : ParsedName :=
  let parts := match name with
               | Some n => filter truthy (split "-"%char n)
               | None => []
               end in
  let (r, parts1) := pop parts in
  let (e, parts2) := pop parts1 in
  let (p, _) := pop parts2 in
  {| product := or_empty p; environment := or_empty e; role := or_empty r |}.

(** What the search index returns for a raw entitlement. [doc_source] is
    [source?.id]; [doc_requestable] reads [undefined] as [false]. *)
Record EntitlementDocument := {
  doc_id : string;
  doc_name : string;
  doc_requestable : bool;
  doc_source : option string
}.

Record Attributes := {
  attr_id : string;
  attr_name : string;
  attr_description : string;
  attr_product : string;
  attr_environment : option string;
  attr_role : string;
  attr_parent : option string;
  attr_ids : list string
}.

(** [class Entitlement implements StdEntitlementListOutput] *)
Record Entitlement := {
  ent_identity : string;
  ent_uuid : string;
  ent_type : string;
  ent_attributes : Attributes
}.

(** [new Entitlement(entitlementDocument)] *)
Definition newEntitlement (d : EntitlementDocument) : Entitlement :=
  let n := parseName (Some (doc_name d)) in
  {| ent_identity := doc_name d;
     ent_uuid := doc_name d;
     ent_type := "entitlement";
     ent_attributes :=
       {| attr_id := doc_name d;
          attr_name := doc_name d;
          attr_description :=
            ("Proxy entitlement for " ++ environment n ++ " environment")%string;
          attr_product := product n;
          attr_environment := Some (environment n);
          attr_role := role n;
          attr_parent := Some (product n ++ "-" ++ role n)%string;
          attr_ids := [doc_id d] |} |}.

(** [role ? a : b] on an optional string: [undefined] and [''] are falsy. *)
Definition role_given (r : option string) : bool :=
  match r with Some s => truthy s | None => false end.

(** [Entitlement.buildParent(product, role?)] *)
Definition buildParent (prod : string) (rol : option string) : Entitlement :=
  let name :=
    if role_given rol then (prod ++ "-" ++ or_empty rol)%string else prod in
  let description :=
    if role_given rol
    then ("Proxy entitlement for " ++ or_empty rol ++ " role")%string
    else ("Proxy entitlement for " ++ prod ++ " product")%string in
  {| ent_identity := name;
     ent_uuid := name;
     ent_type := "entitlement";
     ent_attributes :=
       {| attr_id := name;
          attr_name := name;
          attr_description := description;
          attr_product := prod;
          attr_environment := None;
          attr_role := or_empty rol;
          attr_parent := if role_given rol then Some prod else None;
          attr_ids := [] |} |}.

(** [ids.push(id)] through the reference [entitlement.attributes.ids]. *)
Definition push_id (id : string) (e : Entitlement) : Entitlement :=
  let a := ent_attributes e in
  {| ent_identity := ent_identity e;
     ent_uuid := ent_uuid e;
     ent_type := ent_type e;
     ent_attributes :=
       {| attr_id := attr_id a;
          attr_name := attr_name a;
          attr_description := attr_description a;
          attr_product := attr_product a;
          attr_environment := attr_environment a;
          attr_role := attr_role a;
          attr_parent := attr_parent a;
          attr_ids := attr_ids a ++ [id] |} |}.

(* ------------------------------------------------------------------ *)
(** ** Platform records *)

(** An entitlement of the proxy source as [listEntitlements] and
    [getEntitlementbySource] return it: [attributes.ids] holds the ids of
    the raw entitlements it stands for. *)
Record EntitlementV2025 := {
  e_name : string;
  e_value : string;
  e_ids : list string
}.

(** An element of [identity.access]; [acc_source] is [source?.id]. *)
Record AccessItem := {
  acc_id : string;
  acc_name : string;
  acc_type : string;
  acc_source : option string
}.

(** [idn_access] is [None] when the document has no [access]. *)
Record IdentityDocument := {
  idn_id : string;
  idn_name : string;
  idn_access : option (list AccessItem)
}.

(** [acct_entitlements] is [attributes.entitlements], [None] when absent. *)
Record Account := {
  acct_identityId : string;
  acct_entitlements : option (list string)
}.

Record AccessProfileV2025 := { ap_id : string }.

Record EntitlementRefV2025 := { ref_id : string; ref_type : string }.

Record AccessRequestResponse := { response_body : string }.

Inductive AccessRequestType := GrantAccess | RevokeAccess.

Inductive AttributeChangeOp := OpAdd | OpSet | OpRemove.

(** An attribute value arrives as one string or as an array of strings;
    [[v].flat()] makes it an array. *)
Inductive AttributeValue :=
| Single (s : string)
| Multi (l : list string).

Definition flat (v : AttributeValue) : list string :=
  match v with Single s => [s] | Multi l => l end.

Record AttributeChange := {
  chg_op : AttributeChangeOp;
  chg_value : AttributeValue
}.

(** [StdAccountListOutput] *)
Record AccountAttributes := {
  out_id : string;
  out_name : string;
  out_entitlements : list string
}.

Record StdAccountListOutput := {
  out_identity : string;
  out_uuid : string;
  out_attributes : AccountAttributes
}.

Definition account_record (name : string) (ents : list string) : StdAccountListOutput :=
  {| out_identity := name;
     out_uuid := name;
     out_attributes :=
       {| out_id := name; out_name := name; out_entitlements := ents |} |}.

(** Input of create-account and of update-account. *)
Record AccountCreateInput := {
  create_identity : string;
  create_name : option string;
  create_entitlements : AttributeValue
}.

Record AccountUpdateInput := {
  update_identity : string;
  update_changes : option (list AttributeChange)
}.

(** What [res.send] hands to the host. *)
Inductive Output :=
| OutAccount (a : StdAccountListOutput)
| OutEntitlement (e : Entitlement).

(** The configuration and the proxy source found when the connector
    starts ([config.search], [config.createAccessProfile], [source.id],
    [source.owner.id]). *)
Record Connector := {
  config_search : string;
  config_createAccessProfile : bool;
  source_id : string;
  source_owner_id : string
}.

(* ------------------------------------------------------------------ *)
(** ** The platform and the handler monad *)

Inductive Error :=
| RemoteError (msg : string)
| AssertionError (msg : string)
| TypeError (msg : string).

(** The methods of [ISCClient] the handlers call, with their arguments. *)
Inductive Call :=
| SearchEntitlements (query : string)
| SearchIdentities (query : string)
| ListEntitlements (sourceId : string)
| GetEntitlementbySource (value sourceId : string)
| GetIdentityByName (name : string)
| GetAccountBySource (nativeIdentity sourceId : string)
| CreateAccessRequest (identity : string) (entitlements : list string)
    (requestType : AccessRequestType) (comment : string)
| PatchEntitlement (id : string)
| GetAccessProfileByName (name : string)
| UpdateAccessProfile (id : string) (entitlements : list EntitlementRefV2025)
    (requestable : bool)
| CreateAccessProfile (name ownerId : string) (sourceId : option string)
    (entitlements : list EntitlementRefV2025) (requestable : bool).

(** What each method resolves to. *)
Definition reply (c : Call) : Type :=
  match c with
  | SearchEntitlements _ => list EntitlementDocument
  | SearchIdentities _ => list IdentityDocument
  | ListEntitlements _ => list EntitlementV2025
  | GetEntitlementbySource _ _ => option EntitlementV2025
  | GetIdentityByName _ => option IdentityDocument
  | GetAccountBySource _ _ => option Account
  | CreateAccessRequest _ _ _ _ => AccessRequestResponse
  | PatchEntitlement _ => EntitlementV2025
  | GetAccessProfileByName _ => option AccessProfileV2025
  | UpdateAccessProfile _ _ _ => AccessProfileV2025
  | CreateAccessProfile _ _ _ _ _ => AccessProfileV2025
  end.

(** One interaction: a platform call and whether it resolved, the retry
    delay, or a record sent to the host. *)
Inductive Event :=
| EvCall (c : Call) (ok : bool)
| EvSleep (ms : N)
| EvSend (o : Output).

Definition History := list Event.

(** The platform: its answer to a call may depend on everything that
    happened before (a call can be rejected once and accepted later). *)
Definition Platform := History -> forall c : Call, Error + reply c.

Inductive Outcome (A : Type) :=
| Returned (a : A)
| Thrown (e : Error).
Arguments Returned {A} a.
Arguments Thrown {A} e.

(** A handler step: from the history so far to an outcome and the history
    extended by what the step did. A throw keeps the history. *)
Definition M (A : Type) : Type := History -> Outcome A * History.

Definition ret {A : Type} (a : A) : M A := fun h => (Returned a, h).

Definition throw {A : Type} (e : Error) : M A := fun h => (Thrown e, h).

Definition bind {A B : Type} (m : M A) (k : A -> M B) : M B :=
  fun h =>
    match m h with
    | (Returned a, h') => k a h'
    | (Thrown e, h') => (Thrown e, h')
    end.

Notation "x <- m ;; k" := (bind m (fun x => k))
  (at level 61, m at next level, right associativity).
Notation "m ;;; k" := (bind m (fun _ => k))
  (at level 61, right associativity).

(** [try { m } catch (error) { handler }] *)
Definition try_catch {A : Type} (m : M A) (handler : Error -> M A) : M A :=
  fun h =>
    match m h with
    | (Returned a, h') => (Returned a, h')
    | (Thrown e, h') => handler e h'
    end.

(** [assert(cond, msg)] *)
Definition assert (cond : bool) (msg : string) : M unit :=
  if cond then ret tt else throw (AssertionError msg).

(** [for (const x of arr) { body }] *)
Fixpoint for_of {A : Type} (arr : list A) (body : A -> M unit) : M unit :=
  match arr with
  | [] => ret tt
  | x :: rest => body x ;;; for_of rest body
  end.

(** A loop that updates local variables: [body] maps their values before
    an iteration to their values after it. *)
Fixpoint for_of_with {A S : Type} (arr : list A) (body : A -> S -> M S) (s : S) : M S :=
  match arr with
  | [] => ret s
  | x :: rest => s' <- body x s ;; for_of_with rest body s'
  end.

Definition is_ok {A : Type} (r : Error + A) : bool :=
  match r with inr _ => true | inl _ => false end.

Section Handlers.
Variable isc_platform : Platform.
Variable conn : Connector.

(** [await isc.method(args)] *)
Definition isc (c : Call) : M (reply c) :=
  fun h =>
    match isc_platform h c with
    | inr v => (Returned v, h ++ [EvCall c true])
    | inl e => (Thrown e, h ++ [EvCall c false])
    end.

(** [await new Promise((resolve) => setTimeout(resolve, ms))] *)
Definition sleep (ms : N) : M unit :=
  fun h => (Returned tt, h ++ [EvSleep ms]).

(** [res.send(o)] *)
Definition send (o : Output) : M unit :=
  fun h => (Returned tt, h ++ [EvSend o]).

(** [getSourceEntitlements]: the ids behind the given proxy values, in a
    [Set], read back as an array. [entitlement?.attributes?.ids ?? []]
    is empty when nothing was found. *)
Definition add_source_entitlements (entitlementValue : string)
    (accountEntitlements : list string) : M (list string) :=
  entitlement <- isc (GetEntitlementbySource entitlementValue (source_id conn)) ;;
  let sourceEntitlements :=
    match entitlement with Some e => e_ids e | None => [] end in
  ret (fold_left (fun acc x => set_add x acc) sourceEntitlements
         accountEntitlements).

Definition getSourceEntitlements (entitlementValues : list string) : M (list string) :=
  for_of_with entitlementValues add_source_entitlements [].

Definition request_comment (entitlements : list string) : string :=
  ("Proxy access request for " ++ join ", " entitlements)%string.

(** [createAccessRequest(identity, entitlements, requestType)] *)
Definition createAccessRequest (identity : string) (entitlements : list string)
    (requestType : AccessRequestType) : M AccessRequestResponse :=
  let comment := request_comment entitlements in
  sourceEntitlements <- getSourceEntitlements entitlements ;;
  try_catch
    (isc (CreateAccessRequest identity sourceEntitlements requestType comment))
    (fun _ =>
       sleep 60000 ;;;
       isc (CreateAccessRequest identity sourceEntitlements requestType comment)).

(** [buildEntitlementRef] *)
Definition buildEntitlementRef (ids : list string) : list EntitlementRefV2025 :=
  map (fun id => {| ref_id := id; ref_type := "ENTITLEMENT" |}) ids.

(** *** list-accounts *)

(** [new Map(entitlements.map((x) => [x.name, x]))] *)
Definition entitlementMap (entitlements : list EntitlementV2025)
    : list (string * EntitlementV2025) :=
  fold_left (fun m x => map_set (e_name x) x m) entitlements [].

(** [new Set(entitlements.map((x) => x.attributes.ids).flat())]; only
    [has] is used on it. *)
Definition sourceEntitlementIds (entitlements : list EntitlementV2025) : list string :=
  flat_map e_ids entitlements.

Definition currentSourceEntitlements (entitlements : list EntitlementV2025)
    (access : list (nat * AccessItem)) : list (nat * AccessItem) :=
  filter (fun x => String.eqb (acc_type (snd x)) "ENTITLEMENT"
                   && set_has (sourceEntitlementIds entitlements) (acc_id (snd x)))
         access.

Definition currentProxyEntitlements (access : list (nat * AccessItem))
    : list (nat * AccessItem) :=
  filter (fun x => String.eqb (acc_type (snd x)) "ENTITLEMENT"
                   && match acc_source (snd x) with
                      | Some s => String.eqb s (source_id conn)
                      | None => false
                      end)
         access.

(** The first loop of an identity: the names of the raw entitlements it
    holds. *)
Definition direct_holdings (current : list (nat * AccessItem)) : list string :=
  fold_left (fun s entitlement => set_add (acc_name (snd entitlement)) s) current [].

(** The second loop. [ids] are strings and [currentSourceEntitlements]
    holds the access item objects. *)
Definition proxy_holdings (entitlements : list EntitlementV2025)
    (current proxies : list (nat * AccessItem)) (held : list string) : list string :=
  fold_left
    (fun s entitlement =>
       match map_get (acc_name (snd entitlement)) (entitlementMap entitlements) with
       | Some entitlementObject =>
           if negb (set_has s (acc_name (snd entitlement))) then
             let ids := e_ids entitlementObject in
             if every (fun x => includes (map (fun o => JsObject (fst o)) current)
                                         (JsString x)) ids
             then set_add (e_value entitlementObject) s
             else s
           else s
       | None => s
       end)
    proxies held.

(** [entitlementsAttribute] of one identity when both loops are done. *)
Definition entitlementsAttribute (entitlements : list EntitlementV2025)
    (identity : IdentityDocument) : list string :=
  let access :=
    with_refs (match idn_access identity with Some a => a | None => [] end) in
  let current := currentSourceEntitlements entitlements access in
  let proxies := currentProxyEntitlements access in
  proxy_holdings entitlements current proxies (direct_holdings current).

Definition stdAccountList : M unit :=
  entitlements <- isc (ListEntitlements (source_id conn)) ;;
  identities <- isc (SearchIdentities "*") ;;
  for_of identities
    (fun identity =>
       let held := entitlementsAttribute entitlements identity in
       if Nat.ltb 0 (List.length held)
       then send (OutAccount (account_record (idn_name identity) held))
       else ret tt).

(** *** list-entitlements *)

Record Hierarchy := {
  products : list (string * Entitlement);
  roles : list (string * Entitlement);
  entitlements : list Entitlement
}.

(** The first part of an iteration of the loop over the search result:
    the product and the role of the entitlement are created when they are
    not in the maps yet, and the id of the entitlement is pushed onto the
    ids of both. *)
Definition upsert_nodes (e : EntitlementDocument) (st : Hierarchy) : Hierarchy :=
  let entitlement := newEntitlement e in
  let productName := attr_product (ent_attributes entitlement) in
  let roleName := attr_role (ent_attributes entitlement) in
  let roleId := (productName ++ "-" ++ roleName)%string in
  let products1 :=
    if negb (map_has productName (products st))
    then map_set productName (buildParent productName None) (products st)
    else products st in
  let products2 := map_adjust productName (push_id (doc_id e)) products1 in
  let roles1 :=
    if negb (map_has roleId (roles st))
    then map_set roleId (buildParent productName (Some roleName)) (roles st)
    else roles st in
  let roles2 := map_adjust roleId (push_id (doc_id e)) roles1 in
  {| products := products2; roles := roles2; entitlements := entitlements st |}.

(** One iteration: the nodes, then the flip of an entitlement that is not
    requestable, then the entitlement itself onto the output list. *)
Definition process_entitlement (e : EntitlementDocument) (st : Hierarchy) : M Hierarchy :=
  let st1 := upsert_nodes e st in
  (if negb (doc_requestable e)
   then isc (PatchEntitlement (doc_id e)) ;;; ret tt
   else ret tt) ;;;
  ret {| products := products st1;
         roles := roles st1;
         entitlements := entitlements st1 ++ [newEntitlement e] |}.

(** The access profile of a product or role, when the configuration
    asks for it; errors are caught. *)
Definition sync_access_profile (name : string) (ids : list string)
    (originalSourceId : option string) : M unit :=
  if config_createAccessProfile conn then
    try_catch
      (let entitlementRefs := buildEntitlementRef ids in
       accessProfile <- isc (GetAccessProfileByName name) ;;
       match accessProfile with
       | Some ap =>
           isc (UpdateAccessProfile (ap_id ap) entitlementRefs false) ;;; ret tt
       | None =>
           isc (CreateAccessProfile name (source_owner_id conn) originalSourceId
                  entitlementRefs false) ;;; ret tt
       end)
      (fun _ => ret tt)
  else ret tt.

Definition send_node (originalSourceId : option string)
    (entry : string * Entitlement) : M unit :=
  sync_access_profile (fst entry) (attr_ids (ent_attributes (snd entry)))
    originalSourceId ;;;
  send (OutEntitlement (snd entry)).

Definition stdEntitlementList : M unit :=
  entitlementSearch <- isc (SearchEntitlements (config_search conn)) ;;
  match entitlementSearch with
  | [] => throw (TypeError "Cannot read properties of undefined (reading 'source')")
  | first :: _ =>
      let originalSourceId := doc_source first in
      st <- for_of_with entitlementSearch process_entitlement
              {| products := []; roles := []; entitlements := [] |} ;;
      for_of (products st) (send_node originalSourceId) ;;;
      for_of (roles st) (send_node originalSourceId) ;;;
      for_of (entitlements st) (fun entitlement => send (OutEntitlement entitlement))
  end.

(** *** create-account *)

Definition stdAccountCreate (input : AccountCreateInput) : M unit :=
  let name :=
    match create_name input with Some n => n | None => create_identity input end in
  let entitlements := flat (create_entitlements input) in
  identity <- isc (GetIdentityByName name) ;;
  match identity with
  | None => throw (AssertionError ("Identity " ++ name ++ " not found")%string)
  | Some identity =>
      sourceEntitlements <- getSourceEntitlements entitlements ;;
      createAccessRequest (idn_id identity) sourceEntitlements GrantAccess ;;;
      send (OutAccount (account_record name entitlements))
  end.

(** *** update-account *)

Definition is_set (op : AttributeChangeOp) : bool :=
  match op with OpSet => true | _ => false end.

Definition operation_of (op : AttributeChangeOp) : AccessRequestType :=
  match op with OpAdd => GrantAccess | _ => RevokeAccess end.

(** One iteration of the loop over [input.changes]; the local variables
    are [entitlementsAdd] and [entitlementsRemove]. *)
Definition process_change (existingAccount : Account) (change : AttributeChange)
    (acc : list string * list string) : M (list string * list string) :=
  assert (negb (is_set (chg_op change))) "Unsupported operation" ;;;
  let values := flat (chg_value change) in
  let operation := operation_of (chg_op change) in
  createAccessRequest (acct_identityId existingAccount) values operation ;;;
  match operation with
  | GrantAccess => ret (fst acc ++ values, snd acc)
  | RevokeAccess => ret (fst acc, snd acc ++ values)
  end.

Definition stdAccountUpdate (input : AccountUpdateInput) : M unit :=
  let name := update_identity input in
  existingAccount <- isc (GetAccountBySource name (source_id conn)) ;;
  match existingAccount with
  | None => throw (AssertionError ("Account " ++ name ++ " not found")%string)
  | Some existingAccount =>
      acc <- match update_changes input with
             | Some changes =>
                 for_of_with changes (process_change existingAccount) ([], [])
             | None => ret ([], [])
             end ;;
      let entitlementsAdd := fst acc in
      let entitlementsRemove := snd acc in
      match acct_entitlements existingAccount with
      | None => throw (TypeError "attributes.entitlements is not iterable")
      | Some existing =>
          let kept :=
            filter (fun x => negb (includes (map JsString entitlementsRemove)
                                            (JsString x)))
                   (existing ++ entitlementsAdd) in
          let entitlements := fold_left (fun s x => set_add x s) kept [] in
          send (OutAccount (account_record name entitlements))
      end
  end.

End Handlers.

(* ------------------------------------------------------------------ *)
(** ** Vocabulary of the statements *)

(** A segment without a hyphen in it. *)
Fixpoint no_hyphen (s : string) : bool :=
  match s with
  | EmptyString => true
  | String c rest => negb (Ascii.eqb c "-"%char) && no_hyphen rest
  end.

(** A segment as the naming convention has it: not empty, no hyphen. *)
Definition segment (s : string) : Prop := truthy s = true /\ no_hyphen s = true.

(** The [n]-th element counted from the end, [""] when there is none. *)
Definition from_end (n : nat) (l : list string) : string := nth n (rev l) "".

(** A name with its empty segments removed: consecutive hyphens become
    one, leading and trailing hyphens disappear. *)
Definition collapse (name : string) : string :=
  join "-" (filter truthy (split "-"%char name)).

(** An entitlement that still has to be made requestable. *)
Definition not_requestable (d : EntitlementDocument) : bool :=
  negb (doc_requestable d).

(** The records the host received. *)
Fixpoint sends (h : History) : list Output :=
  match h with
  | [] => []
  | EvSend o :: rest => o :: sends rest
  | _ :: rest => sends rest
  end.

(** The platform calls made, in order, with their success flag. *)
Fixpoint calls (h : History) : list (Call * bool) :=
  match h with
  | [] => []
  | EvCall c ok :: rest => (c, ok) :: calls rest
  | _ :: rest => calls rest
  end.

Definition is_submission (c : Call) : bool :=
  match c with CreateAccessRequest _ _ _ _ => true | _ => false end.

(** The access requests handed to the platform (accepted or not). *)
Definition submissions (h : History) : list (Call * bool) :=
  filter (fun x => is_submission (fst x)) (calls h).

(** The ids of the entitlements a requestable flip was attempted for. *)
Definition flips (h : History) : list string :=
  flat_map (fun x => match fst x with PatchEntitlement id => [id] | _ => [] end)
           (calls h).

Fixpoint sleeps (h : History) : list N :=
  match h with
  | [] => []
  | EvSleep ms :: rest => ms :: sleeps rest
  | _ :: rest => sleeps rest
  end.

Definition accepted_request (x : Call * bool)
    : list (string * AccessRequestType * string) :=
  match x with
  | (CreateAccessRequest identity _ requestType comment, true) =>
      [(identity, requestType, comment)]
  | _ => []
  end.

(** The access requests the platform accepted: subject, direction and
    comment of each. *)
Definition accepted (h : History) : list (string * AccessRequestType * string) :=
  flat_map accepted_request (calls h).

(** The access request update-account makes for a change: subject,
    direction and comment. *)
Definition request_of (account : Account) (change : AttributeChange)
    : string * AccessRequestType * string :=
  (acct_identityId account, operation_of (chg_op change),
   request_comment (flat (chg_value change))).

(** What list-accounts sends for one identity. *)
Definition report (conn : Connector) (ents : list EntitlementV2025)
    (identity : IdentityDocument) : list Event :=
  match entitlementsAttribute conn ents identity with
  | [] => []
  | held => [EvSend (OutAccount (account_record (idn_name identity) held))]
  end.

(** An event of [getSourceEntitlements]: a lookup on the proxy source. *)
Definition is_lookup (e : Event) : bool :=
  match e with
  | EvCall (GetEntitlementbySource _ _) _ => true
  | _ => false
  end.

(* ------------------------------------------------------------------ *)
(** ** Example tenants

    A small platform to run the handlers on: what the searches return, the
    entitlements of the proxy source, whether entitlements may be patched,
    and which access requests are accepted after which history. *)

Record Tenant := {
  t_raw : list EntitlementDocument;
  t_proxy : list EntitlementV2025;
  t_identities : list IdentityDocument;
  t_patch_allowed : bool;
  t_accepts : History -> AccessRequestType -> bool
}.

Definition tenant (t : Tenant) : Platform :=
  fun h c =>
    match c return Error + reply c with
    | SearchEntitlements _ => inr (t_raw t)
    | SearchIdentities _ => inr (t_identities t)
    | ListEntitlements _ => inr (t_proxy t)
    | GetEntitlementbySource value _ =>
        inr (find (fun e => String.eqb (e_value e) value) (t_proxy t))
    | GetIdentityByName name =>
        inr (find (fun i => String.eqb (idn_name i) name) (t_identities t))
    | GetAccountBySource name _ =>
        inr (option_map
               (fun i => {| acct_identityId := idn_id i; acct_entitlements := Some [] |})
               (find (fun i => String.eqb (idn_name i) name) (t_identities t)))
    | CreateAccessRequest _ _ requestType _ =>
        if t_accepts t h requestType
        then inr {| response_body := "accepted" |}
        else inl (RemoteError "request rejected")
    | PatchEntitlement id =>
        if t_patch_allowed t
        then inr {| e_name := id; e_value := id; e_ids := [] |}
        else inl (RemoteError "patch rejected")
    | GetAccessProfileByName _ => inr None
    | UpdateAccessProfile id _ _ => inr {| ap_id := id |}
    | CreateAccessProfile name _ _ _ _ => inr {| ap_id := name |}
    end.

Definition proxy_connector : Connector :=
  {| config_search := "privileged:true";
     config_createAccessProfile := false;
     source_id := "proxy-source";
     source_owner_id := "owner-1" |}.

Definition finance_approver : EntitlementV2025 :=
  {| e_name := "finance-approver";
     e_value := "finance-approver";
     e_ids := ["realEntId123"] |}.

Definition alice : IdentityDocument :=
  {| idn_id := "id-alice"; idn_name := "alice"; idn_access := None |}.

(** Accepts every access request. *)
Definition steady_tenant : Tenant :=
  {| t_raw := [];
     t_proxy := [finance_approver];
     t_identities := [alice];
     t_patch_allowed := true;
     t_accepts := fun _ _ => true |}.

(** Rejects access requests until the connector has waited once. *)
Definition busy_tenant : Tenant :=
  {| t_raw := [];
     t_proxy := [finance_approver];
     t_identities := [alice];
     t_patch_allowed := true;
     t_accepts := fun h _ => match sleeps h with [] => false | _ => true end |}.

(** A role entitlement of the proxy source that stands for the approver
    entitlements of two environments, and three subjects: one holds both
    raw entitlements and the proxy grant, one holds one of them and the
    proxy grant, one holds nothing the connector knows. *)
Definition approver_role : EntitlementV2025 :=
  {| e_name := "finance-approver";
     e_value := "finance-approver";
     e_ids := ["e1"; "e2"] |}.

Definition raw_grant (id name : string) : AccessItem :=
  {| acc_id := id; acc_name := name; acc_type := "ENTITLEMENT";
     acc_source := Some "target-source" |}.

Definition proxy_grant (id name : string) : AccessItem :=
  {| acc_id := id; acc_name := name; acc_type := "ENTITLEMENT";
     acc_source := Some "proxy-source" |}.

Definition bob : IdentityDocument :=
  {| idn_id := "id-bob"; idn_name := "bob";
     idn_access := Some [raw_grant "e1" "finance-prod-approver";
                         raw_grant "e2" "finance-test-approver";
                         proxy_grant "p1" "finance-approver"] |}.

Definition carol : IdentityDocument :=
  {| idn_id := "id-carol"; idn_name := "carol";
     idn_access := Some [raw_grant "e1" "finance-prod-approver";
                         proxy_grant "p1" "finance-approver"] |}.

Definition dave : IdentityDocument :=
  {| idn_id := "id-dave"; idn_name := "dave";
     idn_access := Some [raw_grant "e9" "hr-prod-viewer"] |}.

Definition finance_tenant : Tenant :=
  {| t_raw := [];
     t_proxy := [approver_role];
     t_identities := [bob; carol; dave];
     t_patch_allowed := true;
     t_accepts := fun _ _ => true |}.

Definition raw_entitlement (id name : string) (requestable : bool)
    : EntitlementDocument :=
  {| doc_id := id; doc_name := name; doc_requestable := requestable;
     doc_source := Some "target-source" |}.

(** One raw entitlement, which may be patched. *)
Definition single_tenant : Tenant :=
  {| t_raw := [raw_entitlement "e1" "finance-prod-approver" false];
     t_proxy := [];
     t_identities := [];
     t_patch_allowed := true;
     t_accepts := fun _ _ => true |}.

(** Three raw entitlements, the first requestable already, on a platform
    that rejects every patch of an entitlement. *)
Definition locked_tenant : Tenant :=
  {| t_raw := [raw_entitlement "e0" "finance-prod-auditor" true;
               raw_entitlement "e1" "finance-prod-approver" false;
               raw_entitlement "e2" "finance-prod-viewer" false];
     t_proxy := [];
     t_identities := [];
     t_patch_allowed := false;
     t_accepts := fun _ _ => true |}.

(** Accepts grants and rejects revocations, however often they are
    submitted. *)
Definition grant_only_tenant : Tenant :=
  {| t_raw := [];
     t_proxy := [finance_approver];
     t_identities := [alice];
     t_patch_allowed := true;
     t_accepts := fun _ requestType =>
                    match requestType with GrantAccess => true | RevokeAccess => false end |}.

Definition change (op : AttributeChangeOp) (value : string) : AttributeChange :=
  {| chg_op := op; chg_value := Single value |}.

Definition update_of (changes : list AttributeChange) : AccountUpdateInput :=
  {| update_identity := "alice"; update_changes := Some changes |}.

Definition alice_account : Account :=
  {| acct_identityId := "id-alice"; acct_entitlements := Some [] |}.

Definition alice_lookup : Call := GetAccountBySource "alice" "proxy-source".

Definition resolve_approver : Event :=
  EvCall (GetEntitlementbySource "finance-approver" "proxy-source") true.

Definition approver_request (requestType : AccessRequestType) : Call :=
  CreateAccessRequest "id-alice" ["realEntId123"] requestType
    "Proxy access request for finance-approver".

(* ------------------------------------------------------------------ *)
(** ** Vocabulary of the further properties *)

(** The product and the role key [parseName] gives an entitlement. *)
Definition product_of (d : EntitlementDocument) : string :=
  product (parseName (Some (doc_name d))).

Definition role_key_of (d : EntitlementDocument) : string :=
  (product (parseName (Some (doc_name d))) ++ "-"
   ++ role (parseName (Some (doc_name d))))%string.

(** The maps after the node part of every iteration over a search result. *)
Definition hierarchy_of (docs : list EntitlementDocument) : Hierarchy :=
  fold_left (fun st d => upsert_nodes d st) docs
    {| products := []; roles := []; entitlements := [] |}.

Definition node_ids (node : Entitlement) : list string :=
  attr_ids (ent_attributes node).

(** What an iteration does to one of the two maps: the node under [key]
    is created as [fresh] when the key is new, and [id] is pushed onto its
    ids. *)
Definition upsert_entry (key : string) (fresh : Entitlement) (id : string)
    (m : list (string * Entitlement)) : list (string * Entitlement) :=
  map_adjust key (push_id id)
    (if negb (map_has key m) then map_set key fresh m else m).

(** The ids of the entitlements of a search result that [key] maps to [k]. *)
Definition members (key : EntitlementDocument -> string) (k : string)
    (docs : list EntitlementDocument) : list string :=
  map doc_id (filter (fun d => String.eqb (key d) k) docs).

(** A node's identity, uuid and id attribute are its name, its type is
    entitlement, it has no environment. *)
Definition plain_node (n : Entitlement) : Prop :=
  ent_identity n = attr_name (ent_attributes n)
  /\ ent_uuid n = attr_name (ent_attributes n)
  /\ attr_id (ent_attributes n) = attr_name (ent_attributes n)
  /\ ent_type n = "entitlement"
  /\ attr_environment (ent_attributes n) = None.

(** The values of the Add changes and of the Remove changes, in order. *)
Definition added (changes : list AttributeChange) : list string :=
  flat_map (fun c => match chg_op c with OpAdd => flat (chg_value c) | _ => [] end)
           changes.

Definition removed (changes : list AttributeChange) : list string :=
  flat_map (fun c => match chg_op c with OpRemove => flat (chg_value c) | _ => [] end)
           changes.

Definition changes_of (input : AccountUpdateInput) : list AttributeChange :=
  match update_changes input with Some changes => changes | None => [] end.

(** Calls that read or write access profiles, and those that would make
    an access profile requestable. *)
Definition profile_call (c : Call) : bool :=
  match c with
  | GetAccessProfileByName _ => true
  | UpdateAccessProfile _ _ _ => true
  | CreateAccessProfile _ _ _ _ _ => true
  | _ => false
  end.

Definition requestable_profile_write (c : Call) : bool :=
  match c with
  | UpdateAccessProfile _ _ requestable => requestable
  | CreateAccessProfile _ _ _ _ requestable => requestable
  | _ => false
  end.

(** Calls that change nothing on the platform. *)
Definition read_call (c : Call) : bool :=
  match c with
  | SearchEntitlements _ | SearchIdentities _ | ListEntitlements _
  | GetEntitlementbySource _ _ | GetIdentityByName _ | GetAccountBySource _ _
  | GetAccessProfileByName _ => true
  | _ => false
  end.

(** A run stays within a set of events when everything it adds to the
    history is in the set. *)
Definition within (allowed : Event -> bool) (ev : History) : Prop :=
  forallb allowed ev = true.

Definition confined (allowed : Event -> bool) {A : Type} (m : M A) : Prop :=
  forall h o h', m h = (o, h') -> exists ev, h' = h ++ ev /\ within allowed ev.

(** The events of list-entitlements: the search, flips, access profile
    calls when the configuration asks for profiles - none that makes a
    profile requestable - and entitlement records. *)
Definition entitlement_list_event (profiles : bool) (e : Event) : bool :=
  match e with
  | EvCall (SearchEntitlements _) _ => true
  | EvCall (PatchEntitlement _) _ => true
  | EvCall (GetAccessProfileByName _) _ => profiles
  | EvCall (UpdateAccessProfile _ _ requestable) _ => profiles && negb requestable
  | EvCall (CreateAccessProfile _ _ _ _ requestable) _ => profiles && negb requestable
  | EvCall _ _ => false
  | EvSleep _ => false
  | EvSend (OutEntitlement _) => true
  | EvSend (OutAccount _) => false
  end.

(** The events of create-account and update-account: lookups, access
    requests, the delay of one minute, and account records. *)
Definition account_request_event (e : Event) : bool :=
  match e with
  | EvCall (GetIdentityByName _) _ => true
  | EvCall (GetAccountBySource _ _) _ => true
  | EvCall (GetEntitlementbySource _ _) _ => true
  | EvCall (CreateAccessRequest _ _ _ _) _ => true
  | EvCall _ _ => false
  | EvSleep ms => N.eqb ms 60000
  | EvSend (OutAccount _) => true
  | EvSend (OutEntitlement _) => false
  end.

(** A platform that rejects every call. *)
Definition offline_platform : Platform :=
  fun _ c => inl (RemoteError "offline").

(** The steady tenant, except that the account it returns has no
    entitlements attribute. *)
Definition bare_account_platform : Platform :=
  fun h c =>
    match c as c' return Error + reply c' with
    | GetAccountBySource _ _ =>
        inr (Some {| acct_identityId := "id-alice"; acct_entitlements := None |})
    | c' => tenant steady_tenant h c'
    end.

(** Two environments of one role, and a second role of the same product. *)
Definition finance_raw : list EntitlementDocument :=
  [raw_entitlement "e1" "finance-prod-approver" true;
   raw_entitlement "e2" "finance-test-approver" true;
   raw_entitlement "e3" "finance-prod-viewer" true].

(* ------------------------------------------------------------------ *)
(** ** Strings: [split], [join] and [pop] *)

Section SplitJoin.

Lemma split_not_nil (sep : ascii) (s : string) : split sep s <> [].
Proof.
  induction s as [|c rest IH]; simpl.
  - discriminate.
  - destruct (Ascii.eqb c sep); [discriminate|].
    destruct (split sep rest); discriminate.
Qed.

Lemma split_no_hyphen (s : string) :
  no_hyphen s = true -> split "-"%char s = [s].
Proof.
  induction s as [|c rest IH]; simpl; intros H; [reflexivity|].
  apply andb_true_iff in H as [Hc Hr].
  apply negb_true_iff in Hc. rewrite Hc, (IH Hr). reflexivity.
Qed.

Lemma split_segment_hyphen (s t : string) :
  no_hyphen s = true ->
  split "-"%char (s ++ String "-"%char t)%string = s :: split "-"%char t.
Proof.
  induction s as [|c rest IH]; simpl; intros H; [reflexivity|].
  apply andb_true_iff in H as [Hc Hr].
  apply negb_true_iff in Hc. rewrite Hc, (IH Hr). reflexivity.
Qed.

Lemma split_join (segs : list string) :
  segs <> [] ->
  Forall (fun s => no_hyphen s = true) segs ->
  split "-"%char (join "-" segs) = segs.
Proof.
  induction segs as [|s rest IH]; intros Hne Hall; [congruence|].
  inversion Hall as [|? ? Hs Hrest]; subst.
  destruct rest as [|s' rest'].
  - simpl. now apply split_no_hyphen.
  - change (join "-" (s :: s' :: rest'))
      with (s ++ String "-"%char (join "-" (s' :: rest')))%string.
    rewrite split_segment_hyphen by assumption.
    rewrite IH; [reflexivity | discriminate | assumption].
Qed.

Lemma split_parts_no_hyphen (s : string) :
  Forall (fun p => no_hyphen p = true) (split "-"%char s).
Proof.
  induction s as [|c rest IH]; simpl.
  - repeat constructor.
  - destruct (Ascii.eqb c "-"%char) eqn:Hc.
    + constructor; [reflexivity | assumption].
    + destruct (split "-"%char rest) as [|p ps].
      * constructor; [simpl; now rewrite Hc | constructor].
      * inversion IH; subst. constructor; [|assumption].
        simpl. rewrite Hc. assumption.
Qed.

Lemma filter_truthy_no_hyphen (l : list string) :
  Forall (fun p => no_hyphen p = true) l ->
  Forall (fun p => no_hyphen p = true) (filter truthy l).
Proof.
  induction 1 as [|p ps Hp Hps IH]; simpl; [constructor|].
  destruct (truthy p); [constructor|]; assumption.
Qed.

Lemma filter_truthy_idem (l : list string) :
  filter truthy (filter truthy l) = filter truthy l.
Proof.
  induction l as [|p ps IH]; simpl; [reflexivity|].
  destruct (truthy p) eqn:Hp; simpl; [rewrite Hp, IH|]; auto.
Qed.

Lemma filter_truthy_segments (l : list string) :
  Forall segment l -> filter truthy l = l.
Proof.
  induction 1 as [|p ps [Hp _] Hps IH]; simpl; [reflexivity|].
  now rewrite Hp, IH.
Qed.

(** The parts [parseName] works on survive the round trip through
    [collapse]. *)
Lemma parts_collapse (name : string) :
  filter truthy (split "-"%char (collapse name))
  = filter truthy (split "-"%char name).
Proof.
  unfold collapse.
  pose proof (filter_truthy_no_hyphen _ (split_parts_no_hyphen name)) as Hall.
  destruct (filter truthy (split "-"%char name)) as [|p ps] eqn:Hparts.
  - reflexivity.
  - rewrite split_join; [|discriminate|assumption].
    rewrite <- Hparts. apply filter_truthy_idem.
Qed.

Lemma pop_snoc (l : list string) (x : string) : pop (l ++ [x]) = (Some x, l).
Proof.
  induction l as [|y l IH]; simpl; [reflexivity|].
  rewrite IH. destruct (l ++ [x]) eqn:E; [|reflexivity].
  destruct l; discriminate.
Qed.

Lemma pop_rev (r : list string) :
  pop (rev r) = match r with [] => (None, []) | x :: r' => (Some x, rev r') end.
Proof. destruct r as [|x r']; simpl; [reflexivity | apply pop_snoc]. Qed.

(** After the split and the filter, the three fields are the last three
    parts. *)
Lemma parseName_parts (name : string) :
  let parts := filter truthy (split "-"%char name) in
  parseName (Some name)
  = {| product := from_end 2 parts;
       environment := from_end 1 parts;
       role := from_end 0 parts |}.
Proof.
  unfold parseName, from_end.
  set (parts := filter truthy (split "-"%char name)). simpl.
  rewrite <- (rev_involutive parts).
  destruct (rev parts) as [|a [|b [|c r]]];
    rewrite ?rev_involutive; repeat (rewrite pop_rev; cbv iota beta);
    reflexivity.
Qed.

Lemma parseName_segments (segs : list string) :
  Forall segment segs ->
  parseName (Some (join "-" segs))
  = {| product := from_end 2 segs;
       environment := from_end 1 segs;
       role := from_end 0 segs |}.
Proof.
  intros Hall. rewrite parseName_parts. cbv zeta.
  assert (Hparts : filter truthy (split "-"%char (join "-" segs)) = segs).
  { destruct segs as [|s rest]; [reflexivity|].
    rewrite split_join; [now apply filter_truthy_segments | discriminate |].
    eapply Forall_impl; [|exact Hall]. now intros ? [_ ?]. }
  now rewrite Hparts.
Qed.

End SplitJoin.

(** C9: [parseName] drops the empty hyphen-delimited parts before it takes
    the last three, so a name parses like the same name with consecutive
    hyphens collapsed and leading and trailing hyphens removed (["a--b"]
    like ["a-b"]; ["x-"] gives role ["x"] and nothing else); it is a total
    function whose fields are the empty string where parts are missing,
    also for an absent name. *)
Theorem parseName_ignores_empty_parts :
  (forall name, parseName (Some name) = parseName (Some (collapse name)))
  /\ (forall name,
        let parts := filter truthy (split "-"%char name) in
        parseName (Some name)
        = {| product := from_end 2 parts;
             environment := from_end 1 parts;
             role := from_end 0 parts |})
  /\ parseName (Some "a--b") = parseName (Some "a-b")
  /\ parseName (Some "-a-b-") = parseName (Some "a-b")
  /\ parseName (Some "x-") = {| product := ""; environment := ""; role := "x" |}
  /\ parseName (Some "") = {| product := ""; environment := ""; role := "" |}
  /\ parseName None = {| product := ""; environment := ""; role := "" |}.
Proof.
  split; [|split; [|repeat split]].
  - intros name. rewrite !parseName_parts. cbv zeta.
    now rewrite parts_collapse.
  - exact parseName_parts.
Qed.

(* ------------------------------------------------------------------ *)
(** ** Histories *)

Section HistoryFacts.

Lemma sends_app (a b : History) : sends (a ++ b) = sends a ++ sends b.
Proof.
  induction a as [|[c ok|ms|o] a IH]; simpl; rewrite ?IH; reflexivity.
Qed.

Lemma calls_app (a b : History) : calls (a ++ b) = calls a ++ calls b.
Proof.
  induction a as [|[c ok|ms|o] a IH]; simpl; rewrite ?IH; reflexivity.
Qed.

Lemma sleeps_app (a b : History) : sleeps (a ++ b) = sleeps a ++ sleeps b.
Proof.
  induction a as [|[c ok|ms|o] a IH]; simpl; rewrite ?IH; reflexivity.
Qed.

Lemma submissions_app (a b : History) :
  submissions (a ++ b) = submissions a ++ submissions b.
Proof. unfold submissions. now rewrite calls_app, filter_app. Qed.

Lemma flips_app (a b : History) : flips (a ++ b) = flips a ++ flips b.
Proof. unfold flips. now rewrite calls_app, flat_map_app. Qed.

Lemma accepted_app (a b : History) : accepted (a ++ b) = accepted a ++ accepted b.
Proof. unfold accepted. now rewrite calls_app, flat_map_app. Qed.

End HistoryFacts.

Lemma lookups_silent (ev : History) :
  forallb is_lookup ev = true ->
  sends ev = [] /\ sleeps ev = [] /\ submissions ev = [] /\ accepted ev = []
  /\ flips ev = [].
Proof.
  induction ev as [|e ev IH]; simpl; [now repeat split|].
  intros H. apply andb_true_iff in H as [He Hev].
  destruct (IH Hev) as (H1 & H2 & H3 & H4 & H5).
  destruct e as [c ok|ms|o]; simpl in He; try discriminate.
  destruct c; try discriminate.
  unfold submissions, accepted, flips in *. simpl.
  destruct ok; simpl; now repeat split.
Qed.

Ltac run_step :=
  unfold bind, try_catch, isc, sleep, send, ret, throw, assert in *.

Section Resolution.
Variable P : Platform.
Variable conn : Connector.

(** The loop of [getSourceEntitlements] only looks entitlements up. *)
Lemma resolution_loop_lookups (names : list string) :
  forall (acc : list string) (h : History) o h',
    for_of_with names (add_source_entitlements P conn) acc h = (o, h') ->
    exists ev, h' = h ++ ev /\ forallb is_lookup ev = true.
Proof.
  induction names as [|n names IH]; intros acc h o h' Hrun; simpl in Hrun.
  - run_step. inversion Hrun; subst. exists []. now rewrite app_nil_r.
  - unfold bind at 1, add_source_entitlements at 1 in Hrun.
    unfold bind at 1, isc at 1 in Hrun.
    destruct (P h (GetEntitlementbySource n (source_id conn))) as [e|v].
    + inversion Hrun; subst. eexists. split; [reflexivity|reflexivity].
    + unfold ret at 1 in Hrun.
      apply IH in Hrun as (ev & -> & Hev).
      exists (EvCall (GetEntitlementbySource n (source_id conn)) true :: ev).
      split; [now rewrite <- app_assoc|]. simpl. exact Hev.
Qed.

Lemma getSourceEntitlements_lookups (names : list string) (h : History) o h' :
  getSourceEntitlements P conn names h = (o, h') ->
  exists ev, h' = h ++ ev /\ forallb is_lookup ev = true.
Proof. apply resolution_loop_lookups. Qed.

(** What [createAccessRequest] does once the names are resolved. *)
Lemma createAccessRequest_run identity names requestType h0 ids h1 :
  getSourceEntitlements P conn names h0 = (Returned ids, h1) ->
  let c := CreateAccessRequest identity ids requestType (request_comment names) in
  let h2 := h1 ++ [EvCall c false; EvSleep 60000] in
  createAccessRequest P conn identity names requestType h0
  = match P h1 c with
    | inr response => (Returned response, h1 ++ [EvCall c true])
    | inl _ =>
        match P h2 c with
        | inr response => (Returned response, h2 ++ [EvCall c true])
        | inl e2 => (Thrown e2, h2 ++ [EvCall c false])
        end
    end.
Proof.
  intros Hres c h2. unfold createAccessRequest.
  unfold bind at 1. rewrite Hres.
  unfold try_catch, isc at 1. fold c.
  destruct (P h1 c) as [e1|r1]; [|reflexivity].
  run_step. rewrite <- app_assoc. simpl. fold h2.
  destruct (P h2 c); reflexivity.
Qed.

(** Every run of [createAccessRequest] extends the history by lookups,
    at most two submissions and at most one delay; it sends nothing and
    has one request accepted exactly when it returns. *)
Lemma createAccessRequest_events identity names requestType h0 o h' :
  createAccessRequest P conn identity names requestType h0 = (o, h') ->
  exists ev,
    h' = h0 ++ ev
    /\ sends ev = []
    /\ List.length (submissions ev) <= 2
    /\ List.length (sleeps ev) <= 1
    /\ accepted ev
       = match o with
         | Returned _ => [(identity, requestType, request_comment names)]
         | Thrown _ => []
         end.
Proof.
  intros Hrun.
  destruct (getSourceEntitlements P conn names h0) as [[ids|e] h1] eqn:Hres.
  - rewrite (createAccessRequest_run identity names requestType h0 ids h1 Hres) in Hrun.
    apply getSourceEntitlements_lookups in Hres as (ev & -> & Hev).
    apply lookups_silent in Hev as (S1 & S2 & S3 & S4 & _).
    set (c := CreateAccessRequest identity ids requestType (request_comment names)) in *.
    cbv zeta in Hrun.
    destruct (P (h0 ++ ev) c) as [e1|r1].
    + destruct (P ((h0 ++ ev) ++ [EvCall c false; EvSleep 60000]) c) as [e2|r2];
        inversion Hrun; subst; clear Hrun;
        [ exists (ev ++ [EvCall c false; EvSleep 60000; EvCall c false])
        | exists (ev ++ [EvCall c false; EvSleep 60000; EvCall c true]) ];
        rewrite sends_app, submissions_app, sleeps_app, accepted_app, S1, S2, S3, S4;
        (split; [now rewrite <- !app_assoc|]);
        unfold submissions, accepted; simpl; repeat split; auto.
    + inversion Hrun; subst; clear Hrun.
      exists (ev ++ [EvCall c true]).
      rewrite sends_app, submissions_app, sleeps_app, accepted_app, S1, S2, S3, S4.
      (split; [now rewrite <- !app_assoc|]).
      unfold submissions, accepted; simpl; repeat split; auto.
  - unfold createAccessRequest in Hrun. unfold bind at 1 in Hrun.
    rewrite Hres in Hrun. inversion Hrun; subst; clear Hrun.
    apply getSourceEntitlements_lookups in Hres as (ev & -> & Hev).
    apply lookups_silent in Hev as (S1 & S2 & S3 & S4 & _).
    exists ev. rewrite S1, S2, S3, S4. simpl. repeat split; auto.
Qed.

End Resolution.

(* ------------------------------------------------------------------ *)
(** ** Access requests *)

(** C4: when the first submission of an access request fails, the
    connector waits 60 seconds once and submits the same request once
    more; the outcome is the outcome of the second submission, its result
    or its error. No run has more than two submissions or more than one
    delay. *)
Theorem createAccessRequest_retry_policy
    (P : Platform) (conn : Connector) (identity : string) (names : list string)
    (requestType : AccessRequestType) (h0 h1 : History) (ids : list string)
    (e1 : Error) :
  getSourceEntitlements P conn names h0 = (Returned ids, h1) ->
  P h1 (CreateAccessRequest identity ids requestType (request_comment names))
    = inl e1 ->
  let c := CreateAccessRequest identity ids requestType (request_comment names) in
  let second := P (h1 ++ [EvCall c false; EvSleep 60000]) c in
  createAccessRequest P conn identity names requestType h0
  = (match second with inr response => Returned response | inl e2 => Thrown e2 end,
     h1 ++ [EvCall c false; EvSleep 60000; EvCall c (is_ok second)])
  /\ (forall h o h',
        createAccessRequest P conn identity names requestType h = (o, h') ->
        exists ev, h' = h ++ ev
                   /\ List.length (submissions ev) <= 2
                   /\ List.length (sleeps ev) <= 1).
Proof.
  intros Hres Hfirst c second. split.
  - rewrite (createAccessRequest_run P conn identity names requestType h0 ids h1 Hres).
    cbv zeta. rewrite Hfirst. fold c. fold second.
    destruct second; simpl; rewrite <- app_assoc; reflexivity.
  - intros h o h' Hrun.
    apply createAccessRequest_events in Hrun as (ev & Hh & _ & Hs & Hd & _).
    now exists ev.
Qed.

(** On the busy tenant the first submission is rejected and the second,
    after the delay, is accepted. *)
Lemma createAccessRequest_retry_policy_witness :
  createAccessRequest (tenant busy_tenant) proxy_connector "id-alice"
    ["finance-approver"] GrantAccess []
  = (Returned {| response_body := "accepted" |},
     [EvCall (GetEntitlementbySource "finance-approver" "proxy-source") true;
      EvCall (CreateAccessRequest "id-alice" ["realEntId123"] GrantAccess
                "Proxy access request for finance-approver") false;
      EvSleep 60000;
      EvCall (CreateAccessRequest "id-alice" ["realEntId123"] GrantAccess
                "Proxy access request for finance-approver") true]).
Proof.
  exact (proj1 (createAccessRequest_retry_policy (tenant busy_tenant) proxy_connector
                  "id-alice" ["finance-approver"] GrantAccess []
                  [EvCall (GetEntitlementbySource "finance-approver" "proxy-source") true]
                  ["realEntId123"] (RemoteError "request rejected")
                  eq_refl eq_refl)).
Defined.

Section StableLookups.
Variable P : Platform.
Variable conn : Connector.
Variable look : string -> option EntitlementV2025.
Hypothesis lookup_stable :
  forall h value, P h (GetEntitlementbySource value (source_id conn)) = inr (look value).

(** With lookups that do not change during the run, the resolved ids are
    the ids of the names that resolve, in order of first appearance. *)
Lemma getSourceEntitlements_stable (names : list string) (h : History) :
  getSourceEntitlements P conn names h
  = (Returned (fold_left (fun acc x => set_add x acc) (flat_map
                  (fun value => match look value with
                                | Some e => e_ids e
                                | None => []
                                end)
                  names) []),
     h ++ map (fun v => EvCall (GetEntitlementbySource v (source_id conn)) true) names).
Proof.
  unfold getSourceEntitlements.
  set (ids_of := fun value => match look value with
                              | Some e => e_ids e
                              | None => []
                              end).
  generalize (@nil string) as acc. revert h.
  induction names as [|n names IH]; intros h acc; simpl.
  - unfold ret. now rewrite app_nil_r.
  - unfold bind at 1, add_source_entitlements at 1.
    unfold bind at 1, isc at 1.
    rewrite lookup_stable. unfold ret at 1.
    rewrite IH, fold_left_app, <- app_assoc. reflexivity.
Qed.

End StableLookups.

Lemma set_add_In (x y : string) (s : list string) :
  In y (set_add x s) <-> In y s \/ y = x.
Proof.
  unfold set_add, set_has. destruct (existsb (String.eqb x) s) eqn:E.
  - split; [auto|]. intros [H| ->]; [assumption|].
    apply existsb_exists in E as (z & Hz & Hxz).
    apply String.eqb_eq in Hxz. now subst.
  - rewrite in_app_iff. simpl. intuition.
Qed.

Lemma set_add_NoDup (x : string) (s : list string) : NoDup s -> NoDup (set_add x s).
Proof.
  intros Hs. unfold set_add, set_has.
  destruct (existsb (String.eqb x) s) eqn:E; [assumption|].
  apply NoDup_app; [assumption | repeat constructor; auto |].
  intros y Hy [Heq|[]]. subst y.
  assert (existsb (String.eqb x) s = true); [|congruence].
  apply existsb_exists. exists x. split; [assumption | apply String.eqb_refl].
Qed.

(** Adding to a set keeps it free of duplicates and adds exactly the new
    elements. *)
Lemma set_add_fold (xs s : list string) :
  NoDup s ->
  NoDup (fold_left (fun acc x => set_add x acc) xs s)
  /\ forall y, In y (fold_left (fun acc x => set_add x acc) xs s) <-> In y s \/ In y xs.
Proof.
  revert s. induction xs as [|x xs IH]; intros s Hs; simpl.
  - split; [assumption | intuition].
  - destruct (IH (set_add x s) (set_add_NoDup x s Hs)) as [Hnd Hin].
    split; [assumption|]. intros y. rewrite Hin, set_add_In. intuition.
Qed.

(** C3, evaluated on the scenario of the claim: create-account resolves
    the requested proxy names to the ids behind them and then hands those
    ids to [createAccessRequest], which resolves its argument once more;
    the request that is submitted carries the ids behind the ids - none
    here - and not ["realEntId123"]. Called with the proxy names, as
    update-account does, [createAccessRequest] submits ["realEntId123"]. *)
Theorem stdAccountCreate_resolves_twice :
  stdAccountCreate (tenant steady_tenant) proxy_connector
    {| create_identity := "alice"; create_name := Some "alice";
       create_entitlements := Multi ["finance-approver"] |} []
  = (Returned tt,
     [EvCall (GetIdentityByName "alice") true;
      EvCall (GetEntitlementbySource "finance-approver" "proxy-source") true;
      EvCall (GetEntitlementbySource "realEntId123" "proxy-source") true;
      EvCall (CreateAccessRequest "id-alice" [] GrantAccess
                "Proxy access request for realEntId123") true;
      EvSend (OutAccount (account_record "alice" ["finance-approver"]))])
  /\ createAccessRequest (tenant steady_tenant) proxy_connector "id-alice"
       ["finance-approver"] GrantAccess []
     = (Returned {| response_body := "accepted" |},
        [EvCall (GetEntitlementbySource "finance-approver" "proxy-source") true;
         EvCall (CreateAccessRequest "id-alice" ["realEntId123"] GrantAccess
                   "Proxy access request for finance-approver") true]).
Proof. split; reflexivity. Qed.

(* ------------------------------------------------------------------ *)
(** ** list-accounts *)

(** A string is never found among objects. *)
Lemma includes_string_among_objects (refs : list nat) (x : string) :
  includes (map JsObject refs) (JsString x) = false.
Proof. induction refs as [|r refs IH]; simpl; auto. Qed.

(** The completeness test of the second loop succeeds for an entitlement
    without ids and for no other. *)
Lemma completeness_test (current : list (nat * AccessItem)) (ids : list string) :
  every (fun x => includes (map (fun o => JsObject (fst o)) current) (JsString x)) ids
  = match ids with [] => true | _ => false end.
Proof.
  destruct ids as [|x ids]; [reflexivity|]. simpl.
  rewrite <- (map_map fst JsObject), includes_string_among_objects. reflexivity.
Qed.

(** C1, evaluated: bob holds e1 and e2, which are all the ids of the role
    finance-approver, and holds the proxy grant of that name; the second
    loop compares the ids with the access item objects, finds none, and
    the reported set lacks finance-approver. carol, who holds only e1,
    is not reported as holding it either. *)
Theorem complete_holding_not_recognised :
  entitlementsAttribute proxy_connector [approver_role] bob
    = ["finance-prod-approver"; "finance-test-approver"]
  /\ set_has (entitlementsAttribute proxy_connector [approver_role] bob)
       "finance-approver" = false
  /\ entitlementsAttribute proxy_connector [approver_role] carol
     = ["finance-prod-approver"].
Proof. repeat split. Qed.

Section AccountList.
Variable P : Platform.
Variable conn : Connector.
Variable ents : list EntitlementV2025.

Lemma account_loop_run (identities : list IdentityDocument) (h : History) :
  for_of identities
    (fun identity =>
       let held := entitlementsAttribute conn ents identity in
       if Nat.ltb 0 (List.length held)
       then send (OutAccount (account_record (idn_name identity) held))
       else ret tt) h
  = (Returned tt, h ++ flat_map (report conn ents) identities).
Proof.
  revert h. induction identities as [|i identities IH]; intros h; simpl.
  - unfold ret. now rewrite app_nil_r.
  - unfold bind at 1. unfold report at 1.
    destruct (entitlementsAttribute conn ents i) as [|x held]; simpl.
    + unfold ret at 1. apply IH.
    + unfold send at 1. rewrite IH, <- app_assoc. reflexivity.
Qed.

Lemma sends_reports (identities : list IdentityDocument) :
  sends (flat_map (report conn ents) identities)
  = flat_map
      (fun identity =>
         match entitlementsAttribute conn ents identity with
         | [] => []
         | held => [OutAccount (account_record (idn_name identity) held)]
         end)
      identities.
Proof.
  induction identities as [|i identities IH]; simpl; [reflexivity|].
  rewrite sends_app, IH. unfold report.
  destruct (entitlementsAttribute conn ents i); reflexivity.
Qed.

End AccountList.

(** C7: list-accounts sends, for the identities in order, one account
    record for each identity whose set of held entitlements is not empty
    and nothing for an identity whose set is empty; the record of an
    identity is among the records sent if and only if its set is not
    empty. *)
Theorem stdAccountList_reports_nonempty_only
    (P : Platform) (conn : Connector) (h0 : History)
    (ents : list EntitlementV2025) (identities : list IdentityDocument) :
  P h0 (ListEntitlements (source_id conn)) = inr ents ->
  P (h0 ++ [EvCall (ListEntitlements (source_id conn)) true]) (SearchIdentities "*")
    = inr identities ->
  exists ev,
    stdAccountList P conn h0 = (Returned tt, h0 ++ ev)
    /\ sends ev
       = flat_map
           (fun identity =>
              match entitlementsAttribute conn ents identity with
              | [] => []
              | held => [OutAccount (account_record (idn_name identity) held)]
              end)
           identities
    /\ forall identity,
         In identity identities ->
         (In (OutAccount (account_record (idn_name identity)
                            (entitlementsAttribute conn ents identity)))
             (sends ev)
          <-> entitlementsAttribute conn ents identity <> []).
Proof.
  intros Hents Hidn.
  eexists. split; [|split].
  - unfold stdAccountList. unfold bind at 1, isc at 1. rewrite Hents.
    unfold bind at 1, isc at 1. rewrite Hidn.
    rewrite account_loop_run, <- !app_assoc. reflexivity.
  - simpl. apply sends_reports.
  - intros identity Hin. simpl. rewrite sends_reports, in_flat_map. split.
    + intros (i & _ & Hi) Hempty.
      destruct (entitlementsAttribute conn ents i) as [|x held] eqn:E; [exact Hi|].
      destruct Hi as [Hi|[]]. rewrite Hempty in Hi.
      unfold account_record in Hi. discriminate Hi.
    + intros Hne. exists identity. split; [assumption|].
      destruct (entitlementsAttribute conn ents identity); [congruence|now left].
Qed.

(** On the finance tenant bob and carol are reported and dave, who holds
    nothing of the proxy source, is not. *)
Lemma stdAccountList_reports_nonempty_only_witness :
  exists ev,
    stdAccountList (tenant finance_tenant) proxy_connector [] = (Returned tt, [] ++ ev)
    /\ sends ev
       = [OutAccount (account_record "bob"
                        ["finance-prod-approver"; "finance-test-approver"]);
          OutAccount (account_record "carol" ["finance-prod-approver"])]
    /\ forall identity,
         In identity [bob; carol; dave] ->
         (In (OutAccount (account_record (idn_name identity)
                            (entitlementsAttribute proxy_connector [approver_role]
                               identity)))
             (sends ev)
          <-> entitlementsAttribute proxy_connector [approver_role] identity <> []).
Proof.
  exact (stdAccountList_reports_nonempty_only (tenant finance_tenant) proxy_connector
           [] [approver_role] [bob; carol; dave] eq_refl eq_refl).
Defined.

(* ------------------------------------------------------------------ *)
(** ** list-entitlements *)

(** C8: when the entitlement search returns nothing, list-entitlements
    fails on reading the source of the first result: it throws right after
    the search, makes no other call and sends nothing. *)
Theorem stdEntitlementList_empty_search_fails
    (P : Platform) (conn : Connector) (h0 : History) :
  P h0 (SearchEntitlements (config_search conn)) = inr [] ->
  exists e,
    stdEntitlementList P conn h0
    = (Thrown e, h0 ++ [EvCall (SearchEntitlements (config_search conn)) true])
    /\ e = TypeError "Cannot read properties of undefined (reading 'source')".
Proof.
  intros Hsearch. eexists. split; [|reflexivity].
  unfold stdEntitlementList. unfold bind at 1, isc at 1.
  now rewrite Hsearch.
Qed.

Lemma stdEntitlementList_empty_search_fails_witness :
  exists e,
    stdEntitlementList (tenant steady_tenant) proxy_connector []
    = (Thrown e, [EvCall (SearchEntitlements "privileged:true") true])
    /\ e = TypeError "Cannot read properties of undefined (reading 'source')".
Proof.
  exact (stdEntitlementList_empty_search_fails (tenant steady_tenant) proxy_connector
           [] eq_refl).
Defined.

Lemma for_of_with_app {A S : Type} (a b : list A) (body : A -> S -> M S) (s : S)
    (h : History) :
  for_of_with (a ++ b) body s h
  = match for_of_with a body s h with
    | (Returned s', h') => for_of_with b body s' h'
    | (Thrown e, h') => (Thrown e, h')
    end.
Proof.
  revert s h. induction a as [|x a IH]; intros s h; simpl; [reflexivity|].
  unfold bind. destruct (body x s h) as [[s'|e] h']; [apply IH | reflexivity].
Qed.

Lemma filter_not_requestable_cons (d : EntitlementDocument)
    (l : list EntitlementDocument) :
  filter not_requestable (d :: l)
  = if doc_requestable d then filter not_requestable l
    else d :: filter not_requestable l.
Proof. simpl. unfold not_requestable at 1. now destruct (doc_requestable d). Qed.

Section HierarchyBuild.
Variable P : Platform.
Variable conn : Connector.

(** One iteration: the hierarchy grows in a way that does not depend on
    the platform; a flip is attempted exactly for an entitlement that is
    not requestable, and its failure is the failure of the iteration. *)
Lemma process_entitlement_run (d : EntitlementDocument) (st : Hierarchy) :
  exists st',
    forall h,
      process_entitlement P d st h
      = if doc_requestable d then (Returned st', h)
        else match P h (PatchEntitlement (doc_id d)) with
             | inr _ => (Returned st', h ++ [EvCall (PatchEntitlement (doc_id d)) true])
             | inl err => (Thrown err, h ++ [EvCall (PatchEntitlement (doc_id d)) false])
             end.
Proof.
  eexists. intros h. unfold process_entitlement.
  destruct (doc_requestable d); simpl.
  - run_step. reflexivity.
  - run_step. destruct (P h (PatchEntitlement (doc_id d))); reflexivity.
Qed.

(** The loop over the search result sends nothing; it flips the
    entitlements that are not requestable, in order, up to and including
    the first one whose flip fails. *)
Lemma process_loop_events (docs : list EntitlementDocument) :
  forall st h o h',
    for_of_with docs (process_entitlement P) st h = (o, h') ->
    exists ev,
      h' = h ++ ev
      /\ sends ev = []
      /\ match o with
         | Returned _ => flips ev = map doc_id (filter not_requestable docs)
         | Thrown _ =>
             exists pre e post,
               docs = pre ++ e :: post
               /\ doc_requestable e = false
               /\ flips ev = map doc_id (filter not_requestable pre) ++ [doc_id e]
         end.
Proof.
  induction docs as [|d docs IH]; intros st h o h' Hrun; simpl in Hrun.
  - unfold ret in Hrun. inversion Hrun; subst.
    exists []. rewrite app_nil_r. now repeat split.
  - unfold bind at 1 in Hrun.
    destruct (process_entitlement_run d st) as [st' Hstep].
    rewrite Hstep in Hrun.
    destruct (doc_requestable d) eqn:Hreq.
    + apply IH in Hrun as (ev & -> & Hsends & Ho).
      exists ev. repeat split; auto.
      destruct o as [r|er]; [now rewrite filter_not_requestable_cons, Hreq|].
      destruct Ho as (pre & e & post & -> & He & Hflips).
      exists (d :: pre), e, post.
      rewrite filter_not_requestable_cons, Hreq. now repeat split.
    + destruct (P h (PatchEntitlement (doc_id d))) as [err|v].
      * inversion Hrun; subst.
        exists [EvCall (PatchEntitlement (doc_id d)) false].
        repeat split. exists [], d, docs. now repeat split.
      * apply IH in Hrun as (ev & -> & Hsends & Ho).
        exists (EvCall (PatchEntitlement (doc_id d)) true :: ev).
        rewrite <- app_assoc. repeat split; auto.
        destruct o as [r|er].
        -- rewrite filter_not_requestable_cons, Hreq.
           unfold flips in *. simpl. now rewrite Ho.
        -- destruct Ho as (pre & e & post & -> & He & Hflips).
           exists (d :: pre), e, post.
           rewrite filter_not_requestable_cons, Hreq. repeat split; auto.
           unfold flips in *. simpl. now rewrite Hflips.
Qed.

(** A product or role is sent whatever becomes of its access profile. *)
Lemma send_node_run (originalSourceId : option string)
    (entry : string * Entitlement) (h : History) :
  exists ev,
    send_node P conn originalSourceId entry h = (Returned tt, h ++ ev)
    /\ sends ev = [OutEntitlement (snd entry)]
    /\ flips ev = [].
Proof.
  unfold send_node, sync_access_profile.
  destruct (config_createAccessProfile conn).
  - unfold bind at 1, try_catch, bind at 1, isc at 1.
    set (cget := GetAccessProfileByName (fst entry)).
    destruct (P h cget) as [err|[ap|]].
    + eexists. split; [run_step; rewrite <- app_assoc; reflexivity|].
      now split.
    + unfold bind at 1, isc at 1.
      match goal with |- context [P ?hh (UpdateAccessProfile ?a ?b ?c)] =>
        destruct (P hh (UpdateAccessProfile a b c)) end;
        (eexists; split; [run_step; rewrite <- !app_assoc; reflexivity|]);
        now split.
    + unfold bind at 1, isc at 1.
      match goal with |- context [P ?hh (CreateAccessProfile ?a ?b ?c ?d ?e)] =>
        destruct (P hh (CreateAccessProfile a b c d e)) end;
        (eexists; split; [run_step; rewrite <- !app_assoc; reflexivity|]);
        now split.
  - eexists. split; [run_step; reflexivity|]. now split.
Qed.

Lemma send_nodes_run (originalSourceId : option string)
    (nodes : list (string * Entitlement)) :
  forall h,
  exists ev,
    for_of nodes (send_node P conn originalSourceId) h = (Returned tt, h ++ ev)
    /\ sends ev = map (fun entry => OutEntitlement (snd entry)) nodes
    /\ flips ev = [].
Proof.
  induction nodes as [|entry nodes IH]; intros h; simpl.
  - exists []. unfold ret. rewrite app_nil_r. now repeat split.
  - unfold bind at 1.
    destruct (send_node_run originalSourceId entry h) as (ev1 & -> & S1 & F1).
    destruct (IH (h ++ ev1)) as (ev2 & -> & S2 & F2).
    exists (ev1 ++ ev2). rewrite <- app_assoc, sends_app, flips_app, S1, S2, F1, F2.
    now repeat split.
Qed.

Lemma send_entitlements_run (leaves : list Entitlement) :
  forall h,
  exists ev,
    for_of leaves (fun entitlement => send (OutEntitlement entitlement)) h
    = (Returned tt, h ++ ev)
    /\ sends ev = map OutEntitlement leaves
    /\ flips ev = [].
Proof.
  induction leaves as [|e leaves IH]; intros h; simpl.
  - exists []. unfold ret. rewrite app_nil_r. now repeat split.
  - unfold bind at 1, send at 1.
    destruct (IH (h ++ [EvSend (OutEntitlement e)])) as (ev & -> & S2 & F2).
    exists (EvSend (OutEntitlement e) :: ev). rewrite <- app_assoc. simpl.
    rewrite S2. now repeat split.
Qed.

(** The three sending loops: products, then roles, then the entitlements
    themselves; they always complete. *)
Lemma emission_run (originalSourceId : option string) (st : Hierarchy) (h : History) :
  exists ev,
    (for_of (products st) (send_node P conn originalSourceId) ;;;
     for_of (roles st) (send_node P conn originalSourceId) ;;;
     for_of (entitlements st) (fun entitlement => send (OutEntitlement entitlement))) h
    = (Returned tt, h ++ ev)
    /\ sends ev
       = map (fun entry => OutEntitlement (snd entry)) (products st)
         ++ map (fun entry => OutEntitlement (snd entry)) (roles st)
         ++ map OutEntitlement (entitlements st)
    /\ flips ev = [].
Proof.
  destruct (send_nodes_run originalSourceId (products st) h) as (ev1 & H1 & S1 & F1).
  destruct (send_nodes_run originalSourceId (roles st) (h ++ ev1)) as (ev2 & H2 & S2 & F2).
  destruct (send_entitlements_run (entitlements st) ((h ++ ev1) ++ ev2))
    as (ev3 & H3 & S3 & F3).
  exists (ev1 ++ ev2 ++ ev3).
  unfold bind at 1. rewrite H1. unfold bind at 1. rewrite H2, H3.
  rewrite !sends_app, !flips_app, S1, S2, S3, F1, F2, F3, <- !app_assoc.
  now repeat split.
Qed.

End HierarchyBuild.

(** Counterexample to C6: on the locked tenant the flip of e1 is rejected,
    and list-entitlements ends there with the platform's error. e2 is
    never looked at, no flip is attempted for it, and nothing is sent - no
    product, no role, no entitlement. *)
Lemma flip_failure_stops_the_pass :
  stdEntitlementList (tenant locked_tenant) proxy_connector []
  = (Thrown (RemoteError "patch rejected"),
     [EvCall (SearchEntitlements "privileged:true") true;
      EvCall (PatchEntitlement "e1") false]).
Proof. reflexivity. Qed.

(** A pass that completes has attempted the flip of every entitlement
    that was not requestable, in order, and of no other. *)
Lemma completed_pass_flips (P : Platform) (conn : Connector)
    (docs : list EntitlementDocument) (h h' : History) :
  P h (SearchEntitlements (config_search conn)) = inr docs ->
  stdEntitlementList P conn h = (Returned tt, h') ->
  exists ev,
    h' = h ++ ev /\ flips ev = map doc_id (filter not_requestable docs).
Proof.
  intros Hdocs Hrun.
  unfold stdEntitlementList in Hrun. unfold bind at 1, isc at 1 in Hrun.
  rewrite Hdocs in Hrun.
  destruct docs as [|first rest]; [discriminate|].
  unfold bind at 1 in Hrun.
  destruct (for_of_with (first :: rest) (process_entitlement P)
              {| products := []; roles := []; entitlements := [] |}
              (h ++ [EvCall (SearchEntitlements (config_search conn)) true]))
    as [[st1|e1] h2] eqn:Hloop; [|discriminate].
  apply process_loop_events in Hloop as (ev1 & -> & S1 & F1).
  destruct (emission_run P conn (doc_source first) st1
              ((h ++ [EvCall (SearchEntitlements (config_search conn)) true]) ++ ev1))
    as (ev2 & Hemit & S2 & F2).
  rewrite Hemit in Hrun. inversion Hrun; subst.
  exists ([EvCall (SearchEntitlements (config_search conn)) true] ++ ev1 ++ ev2).
  split; [now rewrite <- !app_assoc|].
  rewrite !flips_app, F1, F2, app_nil_r. reflexivity.
Qed.

Example completed_pass_on_single_tenant :
  fst (stdEntitlementList (tenant single_tenant) proxy_connector []) = Returned tt
  /\ flips (snd (stdEntitlementList (tenant single_tenant) proxy_connector []))
     = ["e1"].
Proof. split; reflexivity. Qed.

(** C6, amended: a flip is attempted for the entitlements that are not
    requestable and for no others, in the order of the search result. When
    the flip of an entitlement E fails, list-entitlements fails with that
    error: the flips before E were those of the entitlements before E that
    were not requestable, no entitlement after E is processed, and nothing
    is sent to the host. A pass that completes, on any platform, has
    attempted the flip of every entitlement that was not requestable and
    of none that was. *)
Theorem flip_failure_aborts_pass
    (P : Platform) (conn : Connector) (h0 h1 : History)
    (pre post : list EntitlementDocument) (e : EntitlementDocument)
    (st : Hierarchy) (err : Error) :
  P h0 (SearchEntitlements (config_search conn)) = inr (pre ++ e :: post) ->
  for_of_with pre (process_entitlement P)
    {| products := []; roles := []; entitlements := [] |}
    (h0 ++ [EvCall (SearchEntitlements (config_search conn)) true])
    = (Returned st, h1) ->
  doc_requestable e = false ->
  P h1 (PatchEntitlement (doc_id e)) = inl err ->
  (exists ev,
     stdEntitlementList P conn h0 = (Thrown err, h0 ++ ev)
     /\ sends ev = []
     /\ flips ev = map doc_id (filter not_requestable pre) ++ [doc_id e])
  /\ (forall P' docs h h',
        P' h (SearchEntitlements (config_search conn)) = inr docs ->
        stdEntitlementList P' conn h = (Returned tt, h') ->
        exists ev,
          h' = h ++ ev
          /\ flips ev = map doc_id (filter not_requestable docs)).
Proof.
  intros Hsearch Hpre Hreq Hpatch. split.
  - set (search := EvCall (SearchEntitlements (config_search conn)) true) in *.
    assert (Hloop :
      for_of_with (pre ++ e :: post) (process_entitlement P)
        {| products := []; roles := []; entitlements := [] |} (h0 ++ [search])
      = (Thrown err, h1 ++ [EvCall (PatchEntitlement (doc_id e)) false])).
    { rewrite for_of_with_app, Hpre. simpl. unfold bind at 1.
      destruct (process_entitlement_run P e st) as [st' Hstep].
      now rewrite Hstep, Hreq, Hpatch. }
    apply process_loop_events in Hpre as (ev1 & -> & S1 & F1).
    exists (search :: ev1 ++ [EvCall (PatchEntitlement (doc_id e)) false]).
    split; [|split].
    + unfold stdEntitlementList. unfold bind at 1, isc at 1. rewrite Hsearch.
      fold search.
      destruct (pre ++ e :: post) as [|first rest] eqn:Hdocs.
      * now destruct pre.
      * unfold bind at 1. rewrite Hloop. now rewrite <- !app_assoc.
    + simpl. rewrite sends_app, S1. reflexivity.
    + change (search :: ev1 ++ [EvCall (PatchEntitlement (doc_id e)) false])
        with ([search] ++ ev1 ++ [EvCall (PatchEntitlement (doc_id e)) false]).
      rewrite !flips_app, F1. reflexivity.
  - intros P' docs h h'. apply completed_pass_flips.
Qed.

(** On the locked tenant e0 is requestable already, the flip of e1 is
    rejected, and e2 is never reached. *)
Lemma flip_failure_aborts_pass_witness :
  (exists ev,
     stdEntitlementList (tenant locked_tenant) proxy_connector []
     = (Thrown (RemoteError "patch rejected"), [] ++ ev)
     /\ sends ev = []
     /\ flips ev = [] ++ ["e1"])
  /\ (forall P' docs h h',
        P' h (SearchEntitlements "privileged:true") = inr docs ->
        stdEntitlementList P' proxy_connector h = (Returned tt, h') ->
        exists ev,
          h' = h ++ ev
          /\ flips ev = map doc_id (filter not_requestable docs)).
Proof.
  exact (flip_failure_aborts_pass (tenant locked_tenant) proxy_connector []
           [EvCall (SearchEntitlements "privileged:true") true]
           [raw_entitlement "e0" "finance-prod-auditor" true]
           [raw_entitlement "e2" "finance-prod-viewer" false]
           (raw_entitlement "e1" "finance-prod-approver" false)
           _ (RemoteError "patch rejected")
           eq_refl eq_refl eq_refl eq_refl).
Defined.

(** Two entitlements of one product with different roles share the
    product node and get a role node each. *)
Example two_roles_of_one_product :
  let st := upsert_nodes (raw_entitlement "e2" "finance-prod-viewer" true)
              (upsert_nodes (raw_entitlement "e1" "finance-prod-approver" true)
                 {| products := []; roles := []; entitlements := [] |}) in
  map (fun x => (fst x, attr_ids (ent_attributes (snd x)))) (products st)
  = [("finance", ["e1"; "e2"])]
  /\ map (fun x => (fst x, attr_ids (ent_attributes (snd x)))) (roles st)
     = [("finance-approver", ["e1"]); ("finance-viewer", ["e2"])].
Proof. split; reflexivity. Qed.

(** C2: a name made of three segments (non-empty, without hyphens) parses
    into product, environment and role. From exactly that entitlement the
    loop builds a product node named by the product and a role node named
    product-role, each with exactly the id of the entitlement as its ids,
    and list-entitlements sends the product node, the role node and the
    entitlement itself, in this order. In general the role is the last
    segment, the environment the one before it and the product the one
    before that, with the empty string for a segment that is not there. *)
Theorem single_entitlement_hierarchy
    (P : Platform) (conn : Connector) (h0 : History)
    (p e r id : string) (requestable : bool) (src : option string) :
  segment p -> segment e -> segment r ->
  let d := {| doc_id := id;
              doc_name := (p ++ "-" ++ e ++ "-" ++ r)%string;
              doc_requestable := requestable;
              doc_source := src |} in
  let search := EvCall (SearchEntitlements (config_search conn)) true in
  P h0 (SearchEntitlements (config_search conn)) = inr [d] ->
  (requestable = true
   \/ exists v, P (h0 ++ [search]) (PatchEntitlement id) = inr v) ->
  parseName (Some (doc_name d)) = {| product := p; environment := e; role := r |}
  /\ (exists productNode roleNode,
        upsert_nodes d {| products := []; roles := []; entitlements := [] |}
        = {| products := [(p, productNode)];
             roles := [((p ++ "-" ++ r)%string, roleNode)];
             entitlements := [] |}
        /\ attr_name (ent_attributes productNode) = p
        /\ attr_ids (ent_attributes productNode) = [id]
        /\ attr_name (ent_attributes roleNode) = (p ++ "-" ++ r)%string
        /\ attr_ids (ent_attributes roleNode) = [id]
        /\ exists ev,
             stdEntitlementList P conn h0 = (Returned tt, h0 ++ ev)
             /\ sends ev = [OutEntitlement productNode; OutEntitlement roleNode;
                            OutEntitlement (newEntitlement d)])
  /\ (forall segs,
        Forall segment segs ->
        parseName (Some (join "-" segs))
        = {| product := from_end 2 segs;
             environment := from_end 1 segs;
             role := from_end 0 segs |}).
Proof.
  intros Hp He Hr d search Hsearch Hflip.
  assert (Hparse : parseName (Some (doc_name d))
                   = {| product := p; environment := e; role := r |}).
  { exact (parseName_segments [p; e; r]
             (Forall_cons _ Hp (Forall_cons _ He (Forall_cons _ Hr (Forall_nil _))))). }
  split; [exact Hparse|]. split; [|exact parseName_segments].
  exists (push_id id (buildParent p None)), (push_id id (buildParent p (Some r))).
  assert (Hnodes :
    upsert_nodes d {| products := []; roles := []; entitlements := [] |}
    = {| products := [(p, push_id id (buildParent p None))];
         roles := [((p ++ "-" ++ r)%string, push_id id (buildParent p (Some r)))];
         entitlements := [] |}).
  { unfold upsert_nodes.
    cbn [products roles entitlements map_has map_get negb map_set
         newEntitlement ent_attributes attr_product attr_role].
    rewrite Hparse. cbn [product role map_adjust doc_id d].
    now rewrite !String.eqb_refl. }
  split; [exact Hnodes|].
  destruct Hr as [Hr _].
  repeat (split; [simpl; unfold role_given; now rewrite ?Hr|]).
  assert (Hstep : exists ev1,
    process_entitlement P d {| products := []; roles := []; entitlements := [] |}
      (h0 ++ [search])
    = (Returned
         {| products := [(p, push_id id (buildParent p None))];
            roles := [((p ++ "-" ++ r)%string, push_id id (buildParent p (Some r)))];
            entitlements := [newEntitlement d] |},
       (h0 ++ [search]) ++ ev1)
    /\ sends ev1 = []).
  { unfold process_entitlement. rewrite Hnodes.
    cbn [products roles entitlements app doc_requestable doc_id d].
    destruct Hflip as [-> | [v Hv]].
    - exists []. run_step. simpl. now rewrite app_nil_r.
    - destruct requestable.
      + exists []. run_step. simpl. now rewrite app_nil_r.
      + exists [EvCall (PatchEntitlement id) true]. run_step. simpl.
        now rewrite Hv. }
  destruct Hstep as (ev1 & Hstep & S1).
  match type of Hstep with _ = (Returned ?s, _) => set (st := s) in * end.
  destruct (emission_run P conn src st ((h0 ++ [search]) ++ ev1))
    as (ev2 & Hemit & S2 & _).
  exists ([search] ++ ev1 ++ ev2). split.
  - unfold stdEntitlementList. unfold bind at 1, isc at 1. rewrite Hsearch.
    fold search. unfold bind at 1.
    cbn [for_of_with]. unfold bind at 1. rewrite Hstep. unfold ret at 1.
    cbn [doc_source d]. rewrite Hemit. now rewrite <- !app_assoc.
  - rewrite !sends_app, S1, S2. reflexivity.
Qed.

(** The single tenant has the raw entitlement finance-prod-approver, not
    yet requestable, and accepts its flip. *)
Lemma single_entitlement_hierarchy_witness :
  parseName (Some "finance-prod-approver")
  = {| product := "finance"; environment := "prod"; role := "approver" |}
  /\ (exists productNode roleNode,
        upsert_nodes (raw_entitlement "e1" "finance-prod-approver" false)
          {| products := []; roles := []; entitlements := [] |}
        = {| products := [("finance", productNode)];
             roles := [("finance-approver", roleNode)];
             entitlements := [] |}
        /\ attr_name (ent_attributes productNode) = "finance"
        /\ attr_ids (ent_attributes productNode) = ["e1"]
        /\ attr_name (ent_attributes roleNode) = "finance-approver"
        /\ attr_ids (ent_attributes roleNode) = ["e1"]
        /\ exists ev,
             stdEntitlementList (tenant single_tenant) proxy_connector []
             = (Returned tt, [] ++ ev)
             /\ sends ev = [OutEntitlement productNode; OutEntitlement roleNode;
                            OutEntitlement
                              (newEntitlement
                                 (raw_entitlement "e1" "finance-prod-approver" false))])
  /\ (forall segs,
        Forall segment segs ->
        parseName (Some (join "-" segs))
        = {| product := from_end 2 segs;
             environment := from_end 1 segs;
             role := from_end 0 segs |}).
Proof.
  exact (single_entitlement_hierarchy (tenant single_tenant) proxy_connector []
           "finance" "prod" "approver" "e1" false (Some "target-source")
           (conj eq_refl eq_refl) (conj eq_refl eq_refl) (conj eq_refl eq_refl)
           eq_refl
           (or_intror (ex_intro _ {| e_name := "e1"; e_value := "e1"; e_ids := [] |}
                         eq_refl))).
Defined.

(* ------------------------------------------------------------------ *)
(** ** update-account *)

Section AccountUpdate.
Variable P : Platform.
Variable conn : Connector.
Variable account : Account.

Lemma process_change_set (c : AttributeChange) acc h :
  is_set (chg_op c) = true ->
  process_change P conn account c acc h
  = (Thrown (AssertionError "Unsupported operation"), h).
Proof. intros Hset. unfold process_change. rewrite Hset. reflexivity. Qed.

Lemma process_change_request (c : AttributeChange) acc h :
  is_set (chg_op c) = false ->
  exists acc',
    process_change P conn account c acc h
    = match createAccessRequest P conn (acct_identityId account)
              (flat (chg_value c)) (operation_of (chg_op c)) h with
      | (Returned _, h') => (Returned acc', h')
      | (Thrown e, h') => (Thrown e, h')
      end.
Proof.
  intros Hset. unfold process_change. rewrite Hset.
  destruct (operation_of (chg_op c)) eqn:Hop; eexists;
    unfold assert; simpl; unfold bind at 1, ret at 1, bind at 1;
    rewrite ?Hop;
    match goal with |- context [createAccessRequest ?a ?b ?c ?d ?e ?f] =>
      destruct (createAccessRequest a b c d e f) as [[resp|err] h'] end;
    reflexivity.
Qed.

(** The loop over the changes sends nothing. When it completes, one
    request per change has been accepted, in order; when it fails, one
    request has been accepted for each change before the failing one. *)
Lemma process_changes_events (changes : list AttributeChange) :
  forall acc h o h',
    for_of_with changes (process_change P conn account) acc h = (o, h') ->
    exists ev,
      h' = h ++ ev
      /\ sends ev = []
      /\ match o with
         | Returned _ => accepted ev = map (request_of account) changes
         | Thrown _ =>
             exists pre c post,
               changes = pre ++ c :: post
               /\ accepted ev = map (request_of account) pre
         end.
Proof.
  induction changes as [|c changes IH]; intros acc h o h' Hrun; simpl in Hrun.
  - unfold ret in Hrun. inversion Hrun; subst.
    exists []. rewrite app_nil_r. now repeat split.
  - unfold bind at 1 in Hrun.
    destruct (is_set (chg_op c)) eqn:Hset.
    + rewrite process_change_set in Hrun by assumption.
      inversion Hrun; subst. exists []. rewrite app_nil_r.
      repeat split. now exists [], c, changes.
    + destruct (process_change_request c acc h Hset) as [acc' Hstep].
      rewrite Hstep in Hrun.
      destruct (createAccessRequest P conn (acct_identityId account)
                  (flat (chg_value c)) (operation_of (chg_op c)) h)
        as [[resp|err] h1] eqn:Hreq;
        apply createAccessRequest_events in Hreq as (ev1 & -> & S1 & _ & _ & A1).
      * apply IH in Hrun as (ev2 & -> & S2 & Ho).
        exists (ev1 ++ ev2). rewrite <- app_assoc, sends_app, S1, S2.
        repeat split.
        destruct o as [r|er].
        -- rewrite accepted_app, A1, Ho. reflexivity.
        -- destruct Ho as (pre & c' & post & -> & Hacc).
           exists (c :: pre), c', post. split; [reflexivity|].
           rewrite accepted_app, A1, Hacc. reflexivity.
      * inversion Hrun; subst. exists ev1. repeat split; [assumption|].
        now exists [], c, changes.
Qed.

End AccountUpdate.

(** Counterexample to C5: update-account looks the account up on the
    platform before it reads the changes, and it rejects a Set change only
    when the loop reaches it, after the request of the Add change before
    it has been resolved and submitted. *)
Lemma set_rejected_after_network_calls :
  stdAccountUpdate (tenant steady_tenant) proxy_connector
    (update_of [change OpSet "finance-approver"]) []
  = (Thrown (AssertionError "Unsupported operation"),
     [EvCall (GetAccountBySource "alice" "proxy-source") true])
  /\ stdAccountUpdate (tenant steady_tenant) proxy_connector
       (update_of [change OpAdd "finance-approver"; change OpSet "finance-approver"]) []
     = (Thrown (AssertionError "Unsupported operation"),
        [EvCall (GetAccountBySource "alice" "proxy-source") true;
         EvCall (GetEntitlementbySource "finance-approver" "proxy-source") true;
         EvCall (CreateAccessRequest "id-alice" ["realEntId123"] GrantAccess
                   "Proxy access request for finance-approver") true]).
Proof. split; reflexivity. Qed.

(** C5, amended: update-account whose changes contain a Set change always
    fails and sends no account record, but not before any network call:
    the account lookup comes first, and the requests of the changes that
    precede the first Set change are resolved and submitted before the Set
    change is rejected. When the lookup finds the account and the changes
    before the Set change are processed, the run ends with the error
    Unsupported operation at exactly that history: one accepted request
    per preceding change, and no call for the Set change or for any change
    after it. *)
Theorem update_with_set_fails
    (P : Platform) (conn : Connector) (input : AccountUpdateInput)
    (pre post : list AttributeChange) (c : AttributeChange)
    (account : Account) (acc : list string * list string) (h0 h1 : History) :
  update_changes input = Some (pre ++ c :: post) ->
  chg_op c = OpSet ->
  P h0 (GetAccountBySource (update_identity input) (source_id conn))
    = inr (Some account) ->
  for_of_with pre (process_change P conn account) ([], [])
    (h0 ++ [EvCall (GetAccountBySource (update_identity input) (source_id conn)) true])
    = (Returned acc, h1) ->
  let lookup := GetAccountBySource (update_identity input) (source_id conn) in
  stdAccountUpdate P conn input h0
  = (Thrown (AssertionError "Unsupported operation"), h1)
  /\ (exists ev,
        h1 = h0 ++ EvCall lookup true :: ev
        /\ accepted ev = map (request_of account) pre
        /\ sends ev = [])
  /\ (forall P' h,
        exists e ev,
          stdAccountUpdate P' conn input h
          = (Thrown e, h ++ EvCall lookup (is_ok (P' h lookup)) :: ev)
          /\ sends ev = []).
Proof.
  intros Hchanges Hop Hlookup Hpre lookup.
  assert (Hset : is_set (chg_op c) = true) by now rewrite Hop.
  assert (Hloop : forall Q account h,
    for_of_with (pre ++ c :: post) (process_change Q conn account) ([], []) h
    = match for_of_with pre (process_change Q conn account) ([], []) h with
      | (Returned _, h') => (Thrown (AssertionError "Unsupported operation"), h')
      | (Thrown e, h') => (Thrown e, h')
      end).
  { intros Q account' h. rewrite for_of_with_app.
    destruct (for_of_with pre (process_change Q conn account') ([], []) h)
      as [[acc'|e] h']; [|reflexivity].
    simpl. unfold bind at 1. now rewrite process_change_set. }
  split; [|split].
  - unfold stdAccountUpdate. fold lookup. unfold bind at 1, isc at 1.
    fold lookup in Hlookup, Hpre.
    rewrite Hlookup. unfold bind at 1. now rewrite Hchanges, Hloop, Hpre.
  - apply process_changes_events in Hpre as (ev & -> & Hsends & Hacc).
    exists ev. rewrite <- app_assoc. now repeat split.
  - intros P' h. unfold stdAccountUpdate. fold lookup. unfold bind at 1, isc at 1.
    destruct (P' h lookup) as [e|[account'|]]; simpl.
    + exists e, []. now split.
    + unfold bind at 1. rewrite Hchanges, Hloop.
      destruct (for_of_with pre (process_change P' conn account') ([], [])
                  (h ++ [EvCall lookup true])) as [[acc'|e] h'] eqn:Hpre';
        apply process_changes_events in Hpre' as (ev & -> & Hsends & _);
        eexists; exists ev; rewrite <- app_assoc; now split.
    + eexists; exists []. now split.
Qed.

(** On the steady tenant, an Add change followed by a Set change: the
    grant is accepted, then the Set change is rejected. *)
Lemma update_with_set_fails_witness :
  stdAccountUpdate (tenant steady_tenant) proxy_connector
    (update_of [change OpAdd "finance-approver"; change OpSet "finance-approver"]) []
  = (Thrown (AssertionError "Unsupported operation"),
     [EvCall alice_lookup true; resolve_approver;
      EvCall (approver_request GrantAccess) true])
  /\ (exists ev,
        [EvCall alice_lookup true; resolve_approver;
         EvCall (approver_request GrantAccess) true]
        = [] ++ EvCall alice_lookup true :: ev
        /\ accepted ev = map (request_of alice_account) [change OpAdd "finance-approver"]
        /\ sends ev = [])
  /\ (forall P' h,
        exists e ev,
          stdAccountUpdate P' proxy_connector
            (update_of [change OpAdd "finance-approver";
                        change OpSet "finance-approver"]) h
          = (Thrown e, h ++ EvCall alice_lookup (is_ok (P' h alice_lookup)) :: ev)
          /\ sends ev = []).
Proof.
  exact (update_with_set_fails (tenant steady_tenant) proxy_connector
           (update_of [change OpAdd "finance-approver";
                       change OpSet "finance-approver"])
           [change OpAdd "finance-approver"] []
           (change OpSet "finance-approver")
           alice_account (["finance-approver"], []) []
           [EvCall alice_lookup true; resolve_approver;
            EvCall (approver_request GrantAccess) true]
           eq_refl eq_refl eq_refl eq_refl).
Defined.

(** C10: update-account submits the request of each change in turn. When
    the request of a change fails, the requests of the changes before it
    have been accepted by the platform and stay accepted - nothing
    withdraws them - while the operation fails with that error and sends
    no account record. *)
Theorem update_is_not_atomic
    (P : Platform) (conn : Connector) (input : AccountUpdateInput)
    (pre post : list AttributeChange) (c : AttributeChange)
    (account : Account) (acc : list string * list string)
    (h0 h1 h2 : History) (e : Error) :
  update_changes input = Some (pre ++ c :: post) ->
  let lookup := GetAccountBySource (update_identity input) (source_id conn) in
  P h0 lookup = inr (Some account) ->
  for_of_with pre (process_change P conn account) ([], [])
    (h0 ++ [EvCall lookup true]) = (Returned acc, h1) ->
  is_set (chg_op c) = false ->
  createAccessRequest P conn (acct_identityId account) (flat (chg_value c))
    (operation_of (chg_op c)) h1 = (Thrown e, h2) ->
  stdAccountUpdate P conn input h0 = (Thrown e, h2)
  /\ exists ev1 ev2,
       h1 = h0 ++ EvCall lookup true :: ev1
       /\ h2 = h1 ++ ev2
       /\ accepted ev1 = map (request_of account) pre
       /\ accepted ev2 = []
       /\ List.length (submissions ev2) <= 2
       /\ sends (ev1 ++ ev2) = [].
Proof.
  intros Hchanges lookup Hlookup Hpre Hset Hreq.
  split.
  - unfold stdAccountUpdate. fold lookup. unfold bind at 1, isc at 1.
    rewrite Hlookup. unfold bind at 1. rewrite Hchanges, for_of_with_app, Hpre.
    simpl. unfold bind at 1.
    destruct (process_change_request P conn account c acc h1 Hset) as [acc' Hstep].
    now rewrite Hstep, Hreq.
  - apply process_changes_events in Hpre as (ev1 & -> & S1 & A1).
    apply createAccessRequest_events in Hreq as (ev2 & -> & S2 & L2 & _ & A2).
    exists ev1, ev2. rewrite sends_app, S1, S2, <- app_assoc.
    now repeat split.
Qed.

(** On the grant-only tenant the grant of the first change is accepted and
    the revocation of the second is rejected twice. *)
Lemma update_is_not_atomic_witness :
  stdAccountUpdate (tenant grant_only_tenant) proxy_connector
    (update_of [change OpAdd "finance-approver"; change OpRemove "finance-approver"]) []
  = (Thrown (RemoteError "request rejected"),
     [EvCall alice_lookup true; resolve_approver;
      EvCall (approver_request GrantAccess) true]
     ++ [resolve_approver; EvCall (approver_request RevokeAccess) false;
         EvSleep 60000; EvCall (approver_request RevokeAccess) false])
  /\ exists ev1 ev2,
       [EvCall alice_lookup true; resolve_approver;
        EvCall (approver_request GrantAccess) true]
       = [] ++ EvCall alice_lookup true :: ev1
       /\ [EvCall alice_lookup true; resolve_approver;
           EvCall (approver_request GrantAccess) true]
          ++ [resolve_approver; EvCall (approver_request RevokeAccess) false;
              EvSleep 60000; EvCall (approver_request RevokeAccess) false]
          = [EvCall alice_lookup true; resolve_approver;
             EvCall (approver_request GrantAccess) true] ++ ev2
       /\ accepted ev1 = map (request_of alice_account) [change OpAdd "finance-approver"]
       /\ accepted ev2 = []
       /\ List.length (submissions ev2) <= 2
       /\ sends (ev1 ++ ev2) = [].
Proof.
  exact (update_is_not_atomic (tenant grant_only_tenant) proxy_connector
           (update_of [change OpAdd "finance-approver";
                       change OpRemove "finance-approver"])
           [change OpAdd "finance-approver"] []
           (change OpRemove "finance-approver")
           alice_account (["finance-approver"], []) []
           [EvCall alice_lookup true; resolve_approver;
            EvCall (approver_request GrantAccess) true]
           ([EvCall alice_lookup true; resolve_approver;
             EvCall (approver_request GrantAccess) true]
            ++ [resolve_approver; EvCall (approver_request RevokeAccess) false;
                EvSleep 60000; EvCall (approver_request RevokeAccess) false])
           (RemoteError "request rejected")
           eq_refl eq_refl eq_refl eq_refl eq_refl).
Defined.


(* ------------------------------------------------------------------ *)
(** ** Further properties of the entitlement model *)

Lemma truthy_not_empty (s : string) : truthy s = true -> s <> "".
Proof. intros H ->. discriminate H. Qed.

Lemma filter_truthy_all (l : list string) :
  Forall (fun p => truthy p = true) (filter truthy l).
Proof.
  induction l as [|p ps IH]; simpl; [constructor|].
  destruct (truthy p) eqn:Hp; [constructor|]; assumption.
Qed.

(** The parts [parseName] pops are non-empty and free of hyphens. *)
Lemma parts_segments (name : string) :
  Forall segment (rev (filter truthy (split "-"%char name))).
Proof.
  apply Forall_rev.
  pose proof (filter_truthy_all (split "-"%char name)) as Ht.
  pose proof (filter_truthy_no_hyphen _ (split_parts_no_hyphen name)) as Hn.
  induction Ht as [|p ps Hp Hps IH]; [constructor|].
  inversion Hn; subst. constructor; [now split | now apply IH].
Qed.

Lemma parseName_shape (name : option string) :
  no_hyphen (product (parseName name)) = true
  /\ no_hyphen (environment (parseName name)) = true
  /\ no_hyphen (role (parseName name)) = true
  /\ (role (parseName name) = "" -> environment (parseName name) = "")
  /\ (environment (parseName name) = "" -> product (parseName name) = "").
Proof.
  destruct name as [name|]; [|now repeat split].
  rewrite parseName_parts. cbv zeta. unfold from_end.
  pose proof (parts_segments name) as Hall.
  destruct (rev (filter truthy (split "-"%char name))) as [|a [|b [|c rest]]];
    simpl; repeat (match goal with
                   | H : Forall _ (_ :: _) |- _ => inversion H; subst; clear H
                   end);
    repeat match goal with
           | H : segment _ |- _ =>
               let Ht := fresh "Ht" in let Hn := fresh "Hn" in
               destruct H as [Ht Hn]; apply truthy_not_empty in Ht
           end;
    repeat split; auto; intros; congruence.
Qed.

(** The three fields never contain a hyphen, and they fill up from the
    role: an empty role comes with an empty environment, an empty
    environment with an empty product. *)
Theorem parseName_fields (name : option string) :
  no_hyphen (product (parseName name)) = true
  /\ no_hyphen (environment (parseName name)) = true
  /\ no_hyphen (role (parseName name)) = true
  /\ (role (parseName name) = "" -> environment (parseName name) = "")
  /\ (environment (parseName name) = "" -> product (parseName name) = "").
Proof. exact (parseName_shape name). Qed.

(** Segments in front of the last three are ignored. *)
Theorem parseName_leading_segments (front : list string) (p e r : string) :
  Forall segment front -> segment p -> segment e -> segment r ->
  parseName (Some (join "-" (front ++ [p; e; r])))
  = {| product := p; environment := e; role := r |}.
Proof.
  intros Hfront Hp He Hr.
  rewrite parseName_segments.
  - unfold from_end. rewrite rev_app_distr. reflexivity.
  - apply Forall_app. split; [assumption|].
    repeat (apply Forall_cons; [assumption|]). constructor.
Qed.

Lemma parseName_leading_segments_witness :
  parseName (Some "corp-emea-finance-prod-approver")
  = {| product := "finance"; environment := "prod"; role := "approver" |}.
Proof.
  exact (parseName_leading_segments ["corp"; "emea"] "finance" "prod" "approver"
           (Forall_cons "corp" (conj eq_refl eq_refl : segment "corp")
              (Forall_cons "emea" (conj eq_refl eq_refl : segment "emea")
                 (Forall_nil _)))
           (conj eq_refl eq_refl) (conj eq_refl eq_refl) (conj eq_refl eq_refl)).
Defined.

(* ------------------------------------------------------------------ *)
(** ** Further properties of access requests *)

Lemma resolution_loop_NoDup (P : Platform) (conn : Connector) (names : list string) :
  forall acc h ids h',
    NoDup acc ->
    for_of_with names (add_source_entitlements P conn) acc h = (Returned ids, h') ->
    NoDup ids.
Proof.
  induction names as [|n names IH]; intros acc h ids h' Hacc Hrun; simpl in Hrun.
  - unfold ret in Hrun. inversion Hrun; subst. assumption.
  - unfold bind at 1, add_source_entitlements at 1 in Hrun.
    unfold bind at 1, isc at 1 in Hrun.
    destruct (P h (GetEntitlementbySource n (source_id conn))) as [e|v];
      [discriminate|].
    unfold ret at 1 in Hrun. eapply IH; [|exact Hrun].
    now apply set_add_fold.
Qed.

(** Whatever the platform answers, the ids [getSourceEntitlements]
    returns are free of duplicates. *)
Theorem getSourceEntitlements_NoDup
    (P : Platform) (conn : Connector) (names ids : list string) (h h' : History) :
  getSourceEntitlements P conn names h = (Returned ids, h') ->
  NoDup ids.
Proof. apply resolution_loop_NoDup. constructor. Qed.

Lemma getSourceEntitlements_NoDup_witness : NoDup ["realEntId123"].
Proof.
  exact (getSourceEntitlements_NoDup (tenant steady_tenant) proxy_connector
           ["finance-approver"; "unknown"; "finance-approver"] ["realEntId123"] []
           [resolve_approver;
            EvCall (GetEntitlementbySource "unknown" "proxy-source") true;
            resolve_approver]
           eq_refl).
Defined.

(** On a platform whose lookups do not change during the run, every name
    is looked up once per occurrence, in order, and the ids returned are
    exactly the ids of the entitlements the names resolve to, without
    duplicates; a name that resolves to nothing contributes nothing. *)
Theorem getSourceEntitlements_union
    (P : Platform) (conn : Connector) (look : string -> option EntitlementV2025)
    (names : list string) (h : History) :
  (forall h' value,
     P h' (GetEntitlementbySource value (source_id conn)) = inr (look value)) ->
  exists ids,
    getSourceEntitlements P conn names h
    = (Returned ids,
       h ++ map (fun v => EvCall (GetEntitlementbySource v (source_id conn)) true) names)
    /\ NoDup ids
    /\ forall x,
         In x ids
         <-> exists name e, In name names /\ look name = Some e /\ In x (e_ids e).
Proof.
  intros Hstable. eexists. split; [now apply getSourceEntitlements_stable|].
  destruct (set_add_fold
              (flat_map (fun value => match look value with
                                      | Some e => e_ids e
                                      | None => []
                                      end) names) [] (NoDup_nil _)) as [Hnd Hin].
  split; [exact Hnd|]. intros x. rewrite Hin, in_flat_map. split.
  - intros [[]|(name & Hname & Hx)]. destruct (look name) as [e|] eqn:E; [|destruct Hx].
    now exists name, e.
  - intros (name & e & Hname & Hlook & Hx). right. exists name.
    split; [assumption|]. now rewrite Hlook.
Qed.

Lemma getSourceEntitlements_union_witness :
  exists ids,
    getSourceEntitlements (tenant steady_tenant) proxy_connector
      ["finance-approver"; "unknown"] []
    = (Returned ids,
       [] ++ map (fun v => EvCall (GetEntitlementbySource v "proxy-source") true)
                 ["finance-approver"; "unknown"])
    /\ NoDup ids
    /\ forall x,
         In x ids
         <-> exists name e,
               In name ["finance-approver"; "unknown"]
               /\ find (fun e => String.eqb (e_value e) name) [finance_approver] = Some e
               /\ In x (e_ids e).
Proof.
  exact (getSourceEntitlements_union (tenant steady_tenant) proxy_connector
           (fun value => find (fun e => String.eqb (e_value e) value) [finance_approver])
           ["finance-approver"; "unknown"] [] (fun _ _ => eq_refl)).
Defined.

(** A failed lookup is not retried: [createAccessRequest] fails with the
    error of the lookup, without a submission and without a delay. *)
Theorem createAccessRequest_lookup_failure
    (P : Platform) (conn : Connector) (identity : string) (names : list string)
    (requestType : AccessRequestType) (h0 h1 : History) (e : Error) :
  getSourceEntitlements P conn names h0 = (Thrown e, h1) ->
  createAccessRequest P conn identity names requestType h0 = (Thrown e, h1)
  /\ exists ev,
       h1 = h0 ++ ev /\ submissions ev = [] /\ sleeps ev = [] /\ sends ev = [].
Proof.
  intros Hres. split.
  - unfold createAccessRequest. unfold bind at 1. now rewrite Hres.
  - apply getSourceEntitlements_lookups in Hres as (ev & -> & Hev).
    apply lookups_silent in Hev as (S1 & S2 & S3 & _).
    now exists ev.
Qed.

Lemma createAccessRequest_lookup_failure_witness :
  createAccessRequest offline_platform proxy_connector "id-alice"
    ["finance-approver"; "finance-viewer"] GrantAccess []
  = (Thrown (RemoteError "offline"),
     [EvCall (GetEntitlementbySource "finance-approver" "proxy-source") false])
  /\ exists ev,
       [EvCall (GetEntitlementbySource "finance-approver" "proxy-source") false]
       = [] ++ ev
       /\ submissions ev = [] /\ sleeps ev = [] /\ sends ev = [].
Proof.
  exact (createAccessRequest_lookup_failure offline_platform proxy_connector
           "id-alice" ["finance-approver"; "finance-viewer"] GrantAccess []
           [EvCall (GetEntitlementbySource "finance-approver" "proxy-source") false]
           (RemoteError "offline") eq_refl).
Defined.

(** When no requested name resolves, the access request is submitted all
    the same, with no entitlement in it. *)
Theorem createAccessRequest_nothing_resolved
    (P : Platform) (conn : Connector) (identity : string) (names : list string)
    (requestType : AccessRequestType) (h0 : History) :
  (forall h value, P h (GetEntitlementbySource value (source_id conn)) = inr None) ->
  let lookups :=
    map (fun v => EvCall (GetEntitlementbySource v (source_id conn)) true) names in
  let c := CreateAccessRequest identity [] requestType (request_comment names) in
  exists o ev,
    createAccessRequest P conn identity names requestType h0
    = (o, h0 ++ lookups ++ EvCall c (is_ok (P (h0 ++ lookups) c)) :: ev).
Proof.
  intros Hnone lookups c.
  assert (Hres : getSourceEntitlements P conn names h0 = (Returned [], h0 ++ lookups)).
  { rewrite (getSourceEntitlements_stable P conn (fun _ => None) Hnone).
    f_equal. f_equal. induction names as [|n names IH]; [reflexivity|exact IH]. }
  rewrite (createAccessRequest_run P conn identity names requestType h0 [] _ Hres).
  cbv zeta. fold c.
  destruct (P (h0 ++ lookups) c) as [e1|r1]; simpl.
  - destruct (P ((h0 ++ lookups) ++ [EvCall c false; EvSleep 60000]) c);
      eexists; eexists; rewrite <- !app_assoc; simpl; reflexivity.
  - exists (Returned r1), []. now rewrite <- app_assoc.
Qed.

Lemma createAccessRequest_nothing_resolved_witness :
  exists o ev,
    createAccessRequest (tenant single_tenant) proxy_connector "id-alice"
      ["finance-approver"] GrantAccess []
    = (o,
       [] ++ map (fun v => EvCall (GetEntitlementbySource v "proxy-source") true)
                 ["finance-approver"]
       ++ EvCall (CreateAccessRequest "id-alice" [] GrantAccess
                    (request_comment ["finance-approver"])) true :: ev).
Proof.
  exact (createAccessRequest_nothing_resolved (tenant single_tenant) proxy_connector
           "id-alice" ["finance-approver"] GrantAccess [] (fun _ _ => eq_refl)).
Defined.

(* ------------------------------------------------------------------ *)
(** ** Further properties of create-account *)

(** create-account for a name the platform does not know fails on the
    assertion right after the identity lookup: nothing is resolved,
    requested or sent. *)
Theorem stdAccountCreate_unknown_identity
    (P : Platform) (conn : Connector) (input : AccountCreateInput) (h0 : History) :
  let name :=
    match create_name input with Some n => n | None => create_identity input end in
  P h0 (GetIdentityByName name) = inr None ->
  stdAccountCreate P conn input h0
  = (Thrown (AssertionError ("Identity " ++ name ++ " not found")%string),
     h0 ++ [EvCall (GetIdentityByName name) true]).
Proof.
  intros name Hnone. unfold stdAccountCreate. fold name.
  unfold bind at 1, isc at 1. now rewrite Hnone.
Qed.

Lemma stdAccountCreate_unknown_identity_witness :
  stdAccountCreate (tenant steady_tenant) proxy_connector
    {| create_identity := "zoe"; create_name := None;
       create_entitlements := Single "finance-approver" |} []
  = (Thrown (AssertionError "Identity zoe not found"),
     [EvCall (GetIdentityByName "zoe") true]).
Proof.
  exact (stdAccountCreate_unknown_identity (tenant steady_tenant) proxy_connector
           {| create_identity := "zoe"; create_name := None;
              create_entitlements := Single "finance-approver" |} [] eq_refl).
Defined.

(** create-account starts with the identity lookup. When it returns it
    has had exactly one access request accepted, a grant for the identity
    found, and has sent exactly one account record, which carries the name
    and the requested entitlements as they came in. When it fails, no
    request was accepted and nothing was sent. *)
Theorem stdAccountCreate_outcome
    (P : Platform) (conn : Connector) (input : AccountCreateInput) (h0 : History) :
  let name :=
    match create_name input with Some n => n | None => create_identity input end in
  exists o ev,
    stdAccountCreate P conn input h0
    = (o, h0 ++ EvCall (GetIdentityByName name)
                  (is_ok (P h0 (GetIdentityByName name))) :: ev)
    /\ match o with
       | Returned _ =>
           sends ev
           = [OutAccount (account_record name (flat (create_entitlements input)))]
           /\ exists identity comment,
                P h0 (GetIdentityByName name) = inr (Some identity)
                /\ accepted ev = [(idn_id identity, GrantAccess, comment)]
       | Thrown _ => sends ev = [] /\ accepted ev = []
       end.
Proof.
  intros name. unfold stdAccountCreate. fold name.
  unfold bind at 1, isc at 1.
  destruct (P h0 (GetIdentityByName name)) as [e|[identity|]]; simpl.
  - exists (Thrown e), []. now repeat split.
  - unfold bind at 1.
    destruct (getSourceEntitlements P conn (flat (create_entitlements input))
                (h0 ++ [EvCall (GetIdentityByName name) true]))
      as [[ids|e] h1] eqn:Hres;
      apply getSourceEntitlements_lookups in Hres as (ev1 & -> & Hev1);
      apply lookups_silent in Hev1 as (S1 & _ & _ & A1 & _).
    + unfold bind at 1.
      destruct (createAccessRequest P conn (idn_id identity) ids GrantAccess
                  ((h0 ++ [EvCall (GetIdentityByName name) true]) ++ ev1))
        as [[resp|e] h2] eqn:Hreq;
        apply createAccessRequest_events in Hreq as (ev2 & -> & S2 & _ & _ & A2).
      * exists (Returned tt),
          (ev1 ++ ev2
           ++ [EvSend (OutAccount
                         (account_record name (flat (create_entitlements input))))]).
        unfold send. split; [now rewrite <- !app_assoc|].
        rewrite !sends_app, !accepted_app, S1, S2, A1, A2. split; [reflexivity|].
        now exists identity, (request_comment ids).
      * exists (Thrown e), (ev1 ++ ev2). split; [now rewrite <- !app_assoc|].
        now rewrite sends_app, accepted_app, S1, S2, A1, A2.
    + exists (Thrown e), ev1. split; [now rewrite <- !app_assoc|]. now split.
  - eexists; exists []. now repeat split.
Qed.

(* ------------------------------------------------------------------ *)
(** ** Further properties of update-account *)

Lemma includes_strings (l : list string) (x : string) :
  includes (map JsString l) (JsString x) = true <-> In x l.
Proof.
  unfold includes. rewrite existsb_exists. split.
  - intros (v & Hv & Heq). apply in_map_iff in Hv as (y & <- & Hy).
    simpl in Heq. apply String.eqb_eq in Heq. now subst.
  - intros Hin. exists (JsString x). split; [now apply in_map|].
    simpl. apply String.eqb_refl.
Qed.

Section UpdateLoop.
Variable P : Platform.
Variable conn : Connector.
Variable account : Account.

Lemma process_change_returned (c : AttributeChange) acc h acc' h' :
  process_change P conn account c acc h = (Returned acc', h') ->
  acc' = match chg_op c with
         | OpAdd => (fst acc ++ flat (chg_value c), snd acc)
         | _ => (fst acc, snd acc ++ flat (chg_value c))
         end
  /\ chg_op c <> OpSet.
Proof.
  unfold process_change, assert. intros Hrun.
  destruct (chg_op c); simpl in Hrun; unfold bind, ret, throw in Hrun;
    try discriminate;
    match type of Hrun with context [createAccessRequest ?a ?b ?i ?v ?t ?hh] =>
      destruct (createAccessRequest a b i v t hh) as [[resp|err] h1] end;
    inversion Hrun; subst; (split; [reflexivity|discriminate]).
Qed.

(** The local variables of the loop collect the values of the Add changes
    and of the Remove changes. *)
Lemma process_changes_acc (changes : list AttributeChange) :
  forall acc h acc' h',
    for_of_with changes (process_change P conn account) acc h = (Returned acc', h') ->
    acc' = (fst acc ++ added changes, snd acc ++ removed changes).
Proof.
  induction changes as [|c changes IH]; intros acc h acc' h' Hrun; simpl in Hrun.
  - unfold ret in Hrun. inversion Hrun; subst.
    unfold added, removed. simpl. rewrite !app_nil_r. now destruct acc'.
  - unfold bind at 1 in Hrun.
    destruct (process_change P conn account c acc h) as [[acc1|e] h1] eqn:Hstep;
      [|discriminate].
    apply process_change_returned in Hstep as [-> Hop].
    apply IH in Hrun. rewrite Hrun. unfold added, removed. simpl.
    destruct (chg_op c); simpl; rewrite <- ?app_assoc, ?app_nil_r;
      try reflexivity; congruence.
Qed.

End UpdateLoop.

Lemma update_loop_of_input (P : Platform) (conn : Connector)
    (input : AccountUpdateInput) (account : Account) (h : History) :
  match update_changes input with
  | Some changes => for_of_with changes (process_change P conn account) ([], [])
  | None => ret ([], [])
  end h
  = for_of_with (changes_of input) (process_change P conn account) ([], []) h.
Proof. unfold changes_of. now destruct (update_changes input). Qed.

(** update-account for an account the platform does not have fails on the
    assertion right after the lookup, before any change is looked at. *)
Theorem stdAccountUpdate_unknown_account
    (P : Platform) (conn : Connector) (input : AccountUpdateInput) (h0 : History) :
  P h0 (GetAccountBySource (update_identity input) (source_id conn)) = inr None ->
  stdAccountUpdate P conn input h0
  = (Thrown (AssertionError ("Account " ++ update_identity input ++ " not found")%string),
     h0 ++ [EvCall (GetAccountBySource (update_identity input) (source_id conn)) true]).
Proof.
  intros Hnone. unfold stdAccountUpdate. unfold bind at 1, isc at 1.
  now rewrite Hnone.
Qed.

Lemma stdAccountUpdate_unknown_account_witness :
  stdAccountUpdate (tenant steady_tenant) proxy_connector
    {| update_identity := "zoe";
       update_changes := Some [change OpSet "finance-approver"] |} []
  = (Thrown (AssertionError "Account zoe not found"),
     [EvCall (GetAccountBySource "zoe" "proxy-source") true]).
Proof.
  exact (stdAccountUpdate_unknown_account (tenant steady_tenant) proxy_connector
           {| update_identity := "zoe";
              update_changes := Some [change OpSet "finance-approver"] |} []
           eq_refl).
Defined.

(** When update-account returns, one access request per change has been
    accepted, in order, and exactly one account record has been sent. Its
    entitlements have no duplicates and are the entitlements of the account
    and the added values that are not among the removed values: a value
    that is both added and removed in one invocation is left out, in
    whatever order the changes came. *)
Theorem stdAccountUpdate_record
    (P : Platform) (conn : Connector) (input : AccountUpdateInput)
    (h0 h' : History) :
  stdAccountUpdate P conn input h0 = (Returned tt, h') ->
  let lookup := GetAccountBySource (update_identity input) (source_id conn) in
  exists account existing ev ents,
    P h0 lookup = inr (Some account)
    /\ acct_entitlements account = Some existing
    /\ h' = h0 ++ EvCall lookup true :: ev
    /\ accepted ev = map (request_of account) (changes_of input)
    /\ sends ev = [OutAccount (account_record (update_identity input) ents)]
    /\ NoDup ents
    /\ forall x,
         In x ents
         <-> (In x existing \/ In x (added (changes_of input)))
             /\ ~ In x (removed (changes_of input)).
Proof.
  intros Hrun lookup. unfold stdAccountUpdate in Hrun. fold lookup in Hrun.
  unfold bind at 1, isc at 1 in Hrun.
  destruct (P h0 lookup) as [e|[account|]]; try discriminate.
  unfold bind at 1 in Hrun. rewrite update_loop_of_input in Hrun.
  destruct (for_of_with (changes_of input) (process_change P conn account) ([], [])
              (h0 ++ [EvCall lookup true])) as [[acc|e] h1] eqn:Hloop;
    [|discriminate].
  pose proof (process_changes_acc P conn account _ _ _ _ _ Hloop) as Hacc.
  apply process_changes_events in Hloop as (ev1 & -> & S1 & A1).
  simpl in Hacc. subst acc. cbv zeta in Hrun. cbn [fst snd] in Hrun.
  destruct (acct_entitlements account) as [existing|] eqn:Hexisting;
    [|discriminate].
  unfold send in Hrun. inversion Hrun; subst; clear Hrun.
  set (kept := filter _ _).
  destruct (set_add_fold kept [] (NoDup_nil _)) as [Hnd Hin].
  exists account, existing,
    (ev1 ++ [EvSend (OutAccount (account_record (update_identity input)
                                   (fold_left (fun s x => set_add x s) kept [])))]),
    (fold_left (fun s x => set_add x s) kept []).
  repeat split; try assumption.
  - now rewrite <- !app_assoc.
  - rewrite accepted_app, A1. unfold accepted. simpl. now rewrite app_nil_r.
  - now rewrite sends_app, S1.
  - apply Hin in H as [[]|H]. unfold kept in H. apply filter_In in H as [H _].
    now apply in_app_or.
  - apply Hin in H as [[]|H]. unfold kept in H. apply filter_In in H as [_ H].
    intros Hrem. apply includes_strings in Hrem. rewrite Hrem in H. discriminate.
  - intros [Hx Hrem]. apply Hin. right. unfold kept. apply filter_In. split.
    + now apply in_or_app.
    + destruct (includes (map JsString (removed (changes_of input))) (JsString x))
        eqn:E; [|reflexivity].
      apply includes_strings in E. contradiction.
Qed.

(** Alice, who has no entitlement yet, is given one and has another taken
    away. *)
Lemma stdAccountUpdate_record_witness :
  exists account existing ev ents,
    tenant steady_tenant [] alice_lookup = inr (Some account)
    /\ acct_entitlements account = Some existing
    /\ [EvCall alice_lookup true; resolve_approver;
        EvCall (approver_request GrantAccess) true;
        EvCall (GetEntitlementbySource "finance-viewer" "proxy-source") true;
        EvCall (CreateAccessRequest "id-alice" [] RevokeAccess
                  "Proxy access request for finance-viewer") true;
        EvSend (OutAccount (account_record "alice" ["finance-approver"]))]
       = [] ++ EvCall alice_lookup true :: ev
    /\ accepted ev
       = map (request_of account)
             [change OpAdd "finance-approver"; change OpRemove "finance-viewer"]
    /\ sends ev = [OutAccount (account_record "alice" ents)]
    /\ NoDup ents
    /\ forall x,
         In x ents
         <-> (In x existing
              \/ In x (added [change OpAdd "finance-approver";
                              change OpRemove "finance-viewer"]))
             /\ ~ In x (removed [change OpAdd "finance-approver";
                                 change OpRemove "finance-viewer"]).
Proof.
  exact (stdAccountUpdate_record (tenant steady_tenant) proxy_connector
           (update_of [change OpAdd "finance-approver";
                       change OpRemove "finance-viewer"]) [] _ eq_refl).
Defined.

(** An account without an entitlements attribute cannot be updated: the
    requests of all changes are submitted first, then the operation fails
    with a type error on reading the attribute and sends nothing. *)
Theorem stdAccountUpdate_no_entitlements_attribute
    (P : Platform) (conn : Connector) (input : AccountUpdateInput)
    (account : Account) (acc : list string * list string) (h0 h1 : History) :
  P h0 (GetAccountBySource (update_identity input) (source_id conn))
    = inr (Some account) ->
  acct_entitlements account = None ->
  for_of_with (changes_of input) (process_change P conn account) ([], [])
    (h0 ++ [EvCall (GetAccountBySource (update_identity input) (source_id conn)) true])
    = (Returned acc, h1) ->
  exists msg ev,
    stdAccountUpdate P conn input h0 = (Thrown (TypeError msg), h1)
    /\ h1 = h0 ++ EvCall (GetAccountBySource (update_identity input) (source_id conn))
                    true :: ev
    /\ accepted ev = map (request_of account) (changes_of input)
    /\ sends ev = [].
Proof.
  intros Hlookup Hnone Hloop.
  pose proof Hloop as Hev.
  apply process_changes_events in Hev as (ev & -> & S1 & A1).
  eexists. exists ev. split; [|split; [now rewrite <- app_assoc | now split]].
  unfold stdAccountUpdate. unfold bind at 1, isc at 1. rewrite Hlookup.
  unfold bind at 1. rewrite update_loop_of_input, Hloop. cbv zeta.
  rewrite Hnone. reflexivity.
Qed.

Lemma stdAccountUpdate_no_entitlements_attribute_witness :
  exists msg ev,
    stdAccountUpdate bare_account_platform proxy_connector
      (update_of [change OpAdd "finance-approver"]) []
    = (Thrown (TypeError msg),
       [EvCall alice_lookup true; resolve_approver;
        EvCall (approver_request GrantAccess) true])
    /\ [EvCall alice_lookup true; resolve_approver;
        EvCall (approver_request GrantAccess) true]
       = [] ++ EvCall alice_lookup true :: ev
    /\ accepted ev
       = map (request_of {| acct_identityId := "id-alice"; acct_entitlements := None |})
             [change OpAdd "finance-approver"]
    /\ sends ev = [].
Proof.
  exact (stdAccountUpdate_no_entitlements_attribute bare_account_platform
           proxy_connector (update_of [change OpAdd "finance-approver"])
           {| acct_identityId := "id-alice"; acct_entitlements := None |}
           (["finance-approver"], []) []
           [EvCall alice_lookup true; resolve_approver;
            EvCall (approver_request GrantAccess) true]
           eq_refl eq_refl eq_refl).
Defined.

(* ------------------------------------------------------------------ *)
(** ** Further properties of list-accounts *)

Lemma set_has_In (s : list string) (x : string) : set_has s x = true <-> In x s.
Proof.
  unfold set_has. rewrite existsb_exists. split.
  - intros (y & Hy & Heq). apply String.eqb_eq in Heq. now subst.
  - intros Hin. exists x. split; [assumption | apply String.eqb_refl].
Qed.

Lemma map_get_map_set {V : Type} (k k' : string) (v : V) (m : list (string * V)) :
  map_get k (map_set k' v m) = if String.eqb k k' then Some v else map_get k m.
Proof.
  induction m as [|[k2 v2] m IH]; simpl.
  - reflexivity.
  - destruct (String.eqb_spec k' k2) as [->|Hne]; simpl.
    + now destruct (String.eqb k k2).
    + rewrite IH. destruct (String.eqb_spec k k2) as [->|Hne2]; [|reflexivity].
      destruct (String.eqb_spec k2 k'); [congruence|reflexivity].
Qed.

Lemma entitlementMap_get (ents : list EntitlementV2025) (name : string) :
  map_get name (entitlementMap ents)
  = find (fun e => String.eqb (e_name e) name) (rev ents).
Proof.
  unfold entitlementMap.
  induction ents as [|e ents IH] using rev_ind; [reflexivity|].
  rewrite fold_left_app, rev_app_distr. simpl.
  rewrite map_get_map_set, IH, (String.eqb_sym name (e_name e)).
  reflexivity.
Qed.

(** When several entitlements of the proxy source have one name, the map
    of list-accounts holds the last of them under that name. *)
Theorem entitlementMap_last_wins (ents : list EntitlementV2025) (name : string) :
  map_get name (entitlementMap ents)
  = find (fun e => String.eqb (e_name e) name) (rev ents).
Proof. exact (entitlementMap_get ents name). Qed.

Lemma entitlementMap_In (ents : list EntitlementV2025) (name : string)
    (e : EntitlementV2025) :
  map_get name (entitlementMap ents) = Some e -> In e ents.
Proof.
  rewrite entitlementMap_get. intros Hfind.
  apply find_some in Hfind as [Hin _]. now apply in_rev.
Qed.

Lemma with_refs_In_l {A : Type} (l : list A) (i : nat) (a : A) :
  In (i, a) (with_refs l) -> In a l.
Proof. unfold with_refs. apply in_combine_r. Qed.

Lemma with_refs_In_r {A : Type} (l : list A) (a : A) :
  In a l -> exists i, In (i, a) (with_refs l).
Proof.
  unfold with_refs. generalize 0 as start.
  induction l as [|b l IH]; intros start Hin; [destruct Hin|].
  destruct Hin as [->|Hin].
  - exists start. now left.
  - destruct (IH (S start) Hin) as [i Hi]. exists i. now right.
Qed.

Lemma fold_set_NoDup {A : Type} (step : list string -> A -> list string)
    (l : list A) :
  (forall s a, NoDup s -> NoDup (step s a)) ->
  forall s, NoDup s -> NoDup (fold_left step l s).
Proof.
  intros Hstep. induction l as [|a l IH]; intros s Hs; simpl; auto.
Qed.

Lemma direct_holdings_In (current : list (nat * AccessItem)) (x : string) :
  In x (direct_holdings current)
  <-> exists entry, In entry current /\ acc_name (snd entry) = x.
Proof.
  unfold direct_holdings.
  assert (Hgen : forall s,
    In x (fold_left (fun s entitlement => set_add (acc_name (snd entitlement)) s)
            current s)
    <-> In x s \/ exists entry, In entry current /\ acc_name (snd entry) = x).
  { induction current as [|c current IH]; intros s; simpl.
    - split; [auto | intros [H|(entry & [] & _)]; assumption].
    - rewrite IH, set_add_In. split.
      + intros [[H|H]|(entry & Hin & Hname)]; eauto.
      + intros [H|(entry & [<-|Hin] & Hname)]; eauto. }
  rewrite Hgen. split; [intros [[]|H]; exact H | auto].
Qed.

Section Reconciliation.
Variable conn : Connector.
Variable ents : list EntitlementV2025.

(** The second loop only adds to the set it is given. *)
Lemma proxy_holdings_grows (current proxies : list (nat * AccessItem)) :
  forall held x, In x held -> In x (proxy_holdings ents current proxies held).
Proof.
  unfold proxy_holdings.
  induction proxies as [|p proxies IH]; intros held x Hx; simpl; [assumption|].
  apply IH.
  destruct (map_get (acc_name (snd p)) (entitlementMap ents)) as [obj|];
    [|assumption].
  destruct (negb (set_has held (acc_name (snd p)))); [|assumption].
  destruct (every _ (e_ids obj)); [|assumption].
  apply set_add_In. now left.
Qed.

(** With at least one id on every entitlement of the proxy source, the
    second loop adds nothing. *)
Lemma proxy_holdings_idle (current proxies : list (nat * AccessItem)) :
  (forall e, In e ents -> e_ids e <> []) ->
  forall held, proxy_holdings ents current proxies held = held.
Proof.
  intros Hids. unfold proxy_holdings.
  induction proxies as [|p proxies IH]; intros held; simpl; [reflexivity|].
  destruct (map_get (acc_name (snd p)) (entitlementMap ents)) as [obj|] eqn:Hget;
    [|apply IH].
  destruct (negb (set_has held (acc_name (snd p)))); [|apply IH].
  rewrite completeness_test.
  destruct (e_ids obj) eqn:Hobj; [|apply IH].
  apply entitlementMap_In in Hget. now apply Hids in Hget.
Qed.

Lemma current_source_In (access : list AccessItem) (entry : nat * AccessItem) :
  In entry (currentSourceEntitlements ents (with_refs access))
  -> In (snd entry) access
     /\ acc_type (snd entry) = "ENTITLEMENT"
     /\ In (acc_id (snd entry)) (flat_map e_ids ents).
Proof.
  unfold currentSourceEntitlements, sourceEntitlementIds.
  intros Hin. apply filter_In in Hin as [Hin Hcond].
  apply andb_true_iff in Hcond as [Htype Hid].
  destruct entry as [i a]. repeat split.
  - eapply with_refs_In_l. exact Hin.
  - now apply String.eqb_eq.
  - now apply set_has_In.
Qed.

End Reconciliation.

(** The set list-accounts reports for an identity has no duplicates, and
    it contains the name of every access item of type ENTITLEMENT whose id
    is one of the ids behind the entitlements of the proxy source. *)
Theorem entitlementsAttribute_direct_holdings
    (conn : Connector) (ents : list EntitlementV2025) (identity : IdentityDocument) :
  NoDup (entitlementsAttribute conn ents identity)
  /\ forall a,
       In a (match idn_access identity with Some l => l | None => [] end) ->
       acc_type a = "ENTITLEMENT" ->
       In (acc_id a) (flat_map e_ids ents) ->
       In (acc_name a) (entitlementsAttribute conn ents identity).
Proof.
  unfold entitlementsAttribute. cbv zeta. split.
  - unfold proxy_holdings, direct_holdings.
    apply fold_set_NoDup.
    + intros s p Hs.
      destruct (map_get (acc_name (snd p)) (entitlementMap ents)) as [obj|];
        [|assumption].
      destruct (negb (set_has s (acc_name (snd p)))); [|assumption].
      destruct (every _ (e_ids obj)); [|assumption].
      now apply set_add_NoDup.
    + apply fold_set_NoDup; [|constructor].
      intros s p Hs. now apply set_add_NoDup.
  - intros a Hin Htype Hid. apply proxy_holdings_grows.
    apply direct_holdings_In.
    destruct (with_refs_In_r _ a Hin) as [i Hi].
    exists (i, a). split; [|reflexivity].
    unfold currentSourceEntitlements. apply filter_In. split; [exact Hi|].
    simpl. rewrite Htype. simpl. apply set_has_In. exact Hid.
Qed.

(** When every entitlement of the proxy source carries at least one id -
    as every entitlement list-entitlements sends does - the reported set
    is exactly the set of those names: a proxy grant never adds to it. *)
Theorem entitlementsAttribute_only_direct_holdings
    (conn : Connector) (ents : list EntitlementV2025) (identity : IdentityDocument)
    (x : string) :
  (forall e, In e ents -> e_ids e <> []) ->
  In x (entitlementsAttribute conn ents identity)
  <-> exists a,
        In a (match idn_access identity with Some l => l | None => [] end)
        /\ acc_type a = "ENTITLEMENT"
        /\ In (acc_id a) (flat_map e_ids ents)
        /\ acc_name a = x.
Proof.
  intros Hids. unfold entitlementsAttribute. cbv zeta.
  rewrite proxy_holdings_idle by assumption.
  rewrite direct_holdings_In. split.
  - intros (entry & Hin & Hname). exists (snd entry).
    apply current_source_In in Hin as (H1 & H2 & H3). now repeat split.
  - intros (a & Hin & Htype & Hid & Hname).
    destruct (with_refs_In_r _ a Hin) as [i Hi].
    exists (i, a). split; [|exact Hname].
    unfold currentSourceEntitlements. apply filter_In. split; [exact Hi|].
    simpl. rewrite Htype. simpl. apply set_has_In. exact Hid.
Qed.

Lemma entitlementsAttribute_only_direct_holdings_witness :
  In "finance-approver" (entitlementsAttribute proxy_connector [approver_role] bob)
  <-> exists a,
        In a [raw_grant "e1" "finance-prod-approver";
              raw_grant "e2" "finance-test-approver";
              proxy_grant "p1" "finance-approver"]
        /\ acc_type a = "ENTITLEMENT"
        /\ In (acc_id a) ["e1"; "e2"]
        /\ acc_name a = "finance-approver".
Proof.
  apply (entitlementsAttribute_only_direct_holdings proxy_connector
           [approver_role] bob "finance-approver").
  intros e [<-|[]]. discriminate.
Defined.




(* ------------------------------------------------------------------ *)
(** ** Further properties of the hierarchy *)

Lemma map_get_map_adjust {V : Type} (k k' : string) (f : V -> V)
    (m : list (string * V)) :
  map_get k (map_adjust k' f m)
  = if String.eqb k k' then option_map f (map_get k m) else map_get k m.
Proof.
  induction m as [|[k2 v2] m IH]; simpl.
  - now destruct (String.eqb k k').
  - destruct (String.eqb_spec k' k2) as [->|Hne]; simpl.
    + now destruct (String.eqb k k2).
    + rewrite IH. destruct (String.eqb_spec k k2) as [->|Hne2]; [|reflexivity].
      destruct (String.eqb_spec k2 k'); [congruence|reflexivity].
Qed.

Lemma map_adjust_keys {V : Type} (k : string) (f : V -> V) (m : list (string * V)) :
  map fst (map_adjust k f m) = map fst m.
Proof.
  induction m as [|[k2 v2] m IH]; simpl; [reflexivity|].
  destruct (String.eqb k k2); simpl; [reflexivity | now rewrite IH].
Qed.

Lemma map_set_keys {V : Type} (k : string) (v : V) (m : list (string * V)) :
  map_get k m = None -> map fst (map_set k v m) = map fst m ++ [k].
Proof.
  induction m as [|[k2 v2] m IH]; simpl; [reflexivity|].
  destruct (String.eqb k k2); [discriminate|]. intros H. simpl. now rewrite IH.
Qed.

Lemma map_get_key {V : Type} (k : string) (m : list (string * V)) :
  map_get k m = None -> ~ In k (map fst m).
Proof.
  induction m as [|[k2 v2] m IH]; simpl; [auto|].
  destruct (String.eqb_spec k k2) as [->|Hne]; [discriminate|].
  intros H [Heq|Hin]; [congruence | now apply IH].
Qed.

Lemma upsert_entry_get (k key : string) (fresh : Entitlement) (id : string)
    (m : list (string * Entitlement)) :
  map_get k (upsert_entry key fresh id m)
  = if String.eqb k key
    then Some (push_id id (match map_get key m with Some n => n | None => fresh end))
    else map_get k m.
Proof.
  unfold upsert_entry, map_has. rewrite map_get_map_adjust.
  destruct (String.eqb_spec k key) as [->|Hne].
  - destruct (map_get key m) as [n|] eqn:Hget; simpl.
    + now rewrite Hget.
    + now rewrite map_get_map_set, String.eqb_refl.
  - destruct (map_get key m); simpl; [reflexivity|].
    rewrite map_get_map_set. destruct (String.eqb_spec k key); [congruence|reflexivity].
Qed.

Lemma upsert_entry_keys (key : string) (fresh : Entitlement) (id : string)
    (m : list (string * Entitlement)) :
  NoDup (map fst m) -> NoDup (map fst (upsert_entry key fresh id m)).
Proof.
  intros Hnd. unfold upsert_entry, map_has. rewrite map_adjust_keys.
  destruct (map_get key m) eqn:Hget; simpl; [assumption|].
  rewrite map_set_keys by assumption.
  apply NoDup_app; [assumption | repeat constructor; auto |].
  intros x Hx [<-|[]]. now apply map_get_key in Hget.
Qed.

Section UpsertFold.
Variable key : EntitlementDocument -> string.
Variable fresh : EntitlementDocument -> Entitlement.
Hypothesis fresh_empty : forall d, node_ids (fresh d) = [].

(** The ids under a key after a run over [docs]: the ids that were there,
    followed by the ids of the members of the key, in order. *)
Lemma fold_upsert_ids (docs : list EntitlementDocument) :
  forall m k,
    option_map node_ids
      (map_get k (fold_left (fun m d => upsert_entry (key d) (fresh d) (doc_id d) m)
                    docs m))
    = match option_map node_ids (map_get k m), members key k docs with
      | Some ids, more => Some (ids ++ more)
      | None, [] => None
      | None, more => Some more
      end.
Proof.
  induction docs as [|d docs IH]; intros m k; simpl.
  - destruct (map_get k m); simpl; [now rewrite app_nil_r | reflexivity].
  - rewrite IH, upsert_entry_get. unfold members. simpl.
    rewrite (String.eqb_sym (key d) k).
    destruct (String.eqb_spec k (key d)) as [->|Hne]; simpl.
    + destruct (map_get (key d) m) as [n|]; simpl.
      * unfold node_ids. simpl. now rewrite <- app_assoc.
      * unfold node_ids at 1. simpl. fold (node_ids (fresh d)).
        now rewrite fresh_empty.
    + reflexivity.
Qed.

Lemma fold_upsert_keys (docs : list EntitlementDocument) :
  forall m,
    NoDup (map fst m) ->
    NoDup (map fst (fold_left (fun m d => upsert_entry (key d) (fresh d) (doc_id d) m)
                      docs m)).
Proof.
  induction docs as [|d docs IH]; intros m Hm; simpl; [assumption|].
  apply IH. now apply upsert_entry_keys.
Qed.

(** What holds of every fresh node of a key and survives a push holds of
    the node under that key. *)
Lemma fold_upsert_inv (Q : Entitlement -> Prop) (k : string)
    (docs : list EntitlementDocument) :
  (forall id n, Q n -> Q (push_id id n)) ->
  (forall d, key d = k -> Q (fresh d)) ->
  forall m,
    (forall n, map_get k m = Some n -> Q n) ->
    forall n,
      map_get k (fold_left (fun m d => upsert_entry (key d) (fresh d) (doc_id d) m)
                   docs m) = Some n ->
      Q n.
Proof.
  intros Hpush Hfresh.
  induction docs as [|d docs IH]; intros m Hm n; simpl; [apply Hm|].
  apply IH. intros n'. rewrite upsert_entry_get.
  destruct (String.eqb_spec k (key d)) as [->|Hne]; [|apply Hm].
  intros Hn'. inversion Hn'; subst. apply Hpush.
  destruct (map_get (key d) m) as [n0|] eqn:Hget; [now apply Hm | now apply Hfresh].
Qed.

End UpsertFold.

Lemma hierarchy_fold (docs : list EntitlementDocument) :
  forall st,
    products (fold_left (fun st d => upsert_nodes d st) docs st)
    = fold_left (fun m d => upsert_entry (product_of d)
                              (buildParent (product_of d) None) (doc_id d) m)
        docs (products st)
    /\ roles (fold_left (fun st d => upsert_nodes d st) docs st)
       = fold_left (fun m d => upsert_entry (role_key_of d)
                                 (buildParent (product_of d)
                                    (Some (role (parseName (Some (doc_name d))))))
                                 (doc_id d) m)
           docs (roles st)
    /\ entitlements (fold_left (fun st d => upsert_nodes d st) docs st)
       = entitlements st.
Proof.
  induction docs as [|d docs IH]; intros st; simpl; [now repeat split|].
  destruct (IH (upsert_nodes d st)) as (Hp & Hr & He).
  rewrite Hp, Hr, He. now repeat split.
Qed.

Lemma hierarchy_ids (docs : list EntitlementDocument) (k : string) :
  option_map node_ids (map_get k (products (hierarchy_of docs)))
  = match members product_of k docs with [] => None | ids => Some ids end
  /\ option_map node_ids (map_get k (roles (hierarchy_of docs)))
     = match members role_key_of k docs with [] => None | ids => Some ids end
  /\ NoDup (map fst (products (hierarchy_of docs)))
  /\ NoDup (map fst (roles (hierarchy_of docs))).
Proof.
  unfold hierarchy_of.
  destruct (hierarchy_fold docs {| products := []; roles := []; entitlements := [] |})
    as (Hp & Hr & _).
  rewrite Hp, Hr. simpl. repeat split.
  - rewrite fold_upsert_ids by reflexivity. simpl.
    now destruct (members product_of k docs).
  - rewrite fold_upsert_ids by reflexivity. simpl.
    now destruct (members role_key_of k docs).
  - apply fold_upsert_keys. constructor.
  - apply fold_upsert_keys. constructor.
Qed.

(** Each map has a node under a key exactly when some entitlement of the
    search result has that product (or that product and role), the ids of
    the node are the ids of exactly those entitlements, in the order of
    the search result, and no key occurs twice. A node never has an empty
    list of ids. *)
Theorem hierarchy_members (docs : list EntitlementDocument) (k : string) :
  option_map node_ids (map_get k (products (hierarchy_of docs)))
  = match members product_of k docs with [] => None | ids => Some ids end
  /\ option_map node_ids (map_get k (roles (hierarchy_of docs)))
     = match members role_key_of k docs with [] => None | ids => Some ids end
  /\ NoDup (map fst (products (hierarchy_of docs)))
  /\ NoDup (map fst (roles (hierarchy_of docs))).
Proof. exact (hierarchy_ids docs k). Qed.

(** A product without hyphens in front of the first hyphen of a role key:
    the key determines both. *)
Lemma role_key_unique (p p' r r' : string) :
  no_hyphen p = true -> no_hyphen p' = true ->
  (p ++ "-" ++ r)%string = (p' ++ "-" ++ r')%string ->
  p = p' /\ r = r'.
Proof.
  revert p'. induction p as [|c p IH]; intros [|c' p'] Hp Hp' Heq; simpl in *.
  - inversion Heq. now split.
  - inversion Heq; subst. discriminate Hp'.
  - inversion Heq; subst. discriminate Hp.
  - apply andb_true_iff in Hp as [_ Hp]. apply andb_true_iff in Hp' as [_ Hp'].
    inversion Heq; subst. destruct (IH p' Hp Hp' H1) as [-> ->]. now split.
Qed.

Lemma role_key_of_unique (d d' : EntitlementDocument) :
  role_key_of d = role_key_of d' ->
  product_of d = product_of d'
  /\ role (parseName (Some (doc_name d))) = role (parseName (Some (doc_name d'))).
Proof.
  unfold role_key_of, product_of.
  destruct (parseName_shape (Some (doc_name d))) as (Hp & _).
  destruct (parseName_shape (Some (doc_name d'))) as (Hp' & _).
  now apply role_key_unique.
Qed.

Lemma members_In (key : EntitlementDocument -> string)
    (docs : list EntitlementDocument) (d : EntitlementDocument) :
  In d docs -> In (doc_id d) (members key (key d) docs).
Proof.
  intros Hin. unfold members. apply in_map. apply filter_In.
  split; [assumption | apply String.eqb_refl].
Qed.

Lemma hierarchy_link_facts (docs : list EntitlementDocument) (d : EntitlementDocument) :
  In d docs ->
  exists productNode roleNode,
    map_get (product_of d) (products (hierarchy_of docs)) = Some productNode
    /\ In (doc_id d) (node_ids productNode)
    /\ attr_name (ent_attributes productNode) = product_of d
    /\ attr_parent (ent_attributes productNode) = None
    /\ attr_parent (ent_attributes (newEntitlement d)) = Some (role_key_of d)
    /\ map_get (role_key_of d) (roles (hierarchy_of docs)) = Some roleNode
    /\ In (doc_id d) (node_ids roleNode)
    /\ attr_product (ent_attributes roleNode) = product_of d
    /\ attr_role (ent_attributes roleNode) = role (parseName (Some (doc_name d)))
    /\ (role (parseName (Some (doc_name d))) <> ""
        -> attr_name (ent_attributes roleNode) = role_key_of d
           /\ attr_parent (ent_attributes roleNode) = Some (product_of d)).
Proof.
  intros Hin.
  destruct (hierarchy_ids docs (product_of d)) as (Hp & _).
  destruct (hierarchy_ids docs (role_key_of d)) as (_ & Hr & _).
  pose proof (members_In product_of docs d Hin) as Hmp.
  pose proof (members_In role_key_of docs d Hin) as Hmr.
  destruct (map_get (product_of d) (products (hierarchy_of docs)))
    as [productNode|] eqn:Hgp;
    [|simpl in Hp; destruct (members product_of (product_of d) docs);
      [destruct Hmp | discriminate]].
  destruct (map_get (role_key_of d) (roles (hierarchy_of docs)))
    as [roleNode|] eqn:Hgr;
    [|simpl in Hr; destruct (members role_key_of (role_key_of d) docs);
      [destruct Hmr | discriminate]].
  exists productNode, roleNode.
  assert (Hpids : node_ids productNode = members product_of (product_of d) docs).
  { simpl in Hp. destruct (members product_of (product_of d) docs);
      [destruct Hmp | now inversion Hp]. }
  assert (Hrids : node_ids roleNode = members role_key_of (role_key_of d) docs).
  { simpl in Hr. destruct (members role_key_of (role_key_of d) docs);
      [destruct Hmr | now inversion Hr]. }
  unfold hierarchy_of in Hgp, Hgr.
  destruct (hierarchy_fold docs {| products := []; roles := []; entitlements := [] |})
    as (Hfp & Hfr & _).
  rewrite Hfp in Hgp. rewrite Hfr in Hgr. simpl in Hgp, Hgr.
  assert (HQp : attr_name (ent_attributes productNode) = product_of d
                /\ attr_parent (ent_attributes productNode) = None).
  { eapply (fold_upsert_inv product_of (fun d => buildParent (product_of d) None)
              (fun n => attr_name (ent_attributes n) = product_of d
                        /\ attr_parent (ent_attributes n) = None));
      [| | | exact Hgp].
    - intros id n Hn. exact Hn.
    - intros d' Hd'. simpl. now split.
    - intros n Hn. discriminate Hn. }
  assert (HQr : attr_product (ent_attributes roleNode) = product_of d
                /\ attr_role (ent_attributes roleNode)
                   = role (parseName (Some (doc_name d)))
                /\ (role (parseName (Some (doc_name d))) <> ""
                    -> attr_name (ent_attributes roleNode) = role_key_of d
                       /\ attr_parent (ent_attributes roleNode)
                          = Some (product_of d))).
  { eapply (fold_upsert_inv role_key_of
              (fun d => buildParent (product_of d)
                          (Some (role (parseName (Some (doc_name d))))))
              (fun n => attr_product (ent_attributes n) = product_of d
                        /\ attr_role (ent_attributes n)
                           = role (parseName (Some (doc_name d)))
                        /\ (role (parseName (Some (doc_name d))) <> ""
                            -> attr_name (ent_attributes n) = role_key_of d
                               /\ attr_parent (ent_attributes n)
                                  = Some (product_of d))));
      [| | | exact Hgr].
    - intros id n Hn. exact Hn.
    - intros d' Hd'. apply role_key_of_unique in Hd' as [Hprod Hrole].
      simpl. rewrite Hprod, Hrole. repeat split.
      + unfold role_given, truthy, role_key_of, product_of.
        destruct (String.eqb_spec (role (parseName (Some (doc_name d)))) "");
          [contradiction | reflexivity].
      + unfold role_given, truthy.
        destruct (String.eqb_spec (role (parseName (Some (doc_name d)))) "");
          [contradiction | reflexivity].
    - intros n Hn. discriminate Hn. }
  destruct HQp as (Hn1 & Hn2). destruct HQr as (Hr1 & Hr2 & Hr3).
  rewrite Hpids, Hrids.
  repeat split; try assumption; try reflexivity; now apply Hr3.
Qed.

(** The links of the hierarchy resolve: the parent of the record of an
    entitlement is the key of a role node that holds the id of the
    entitlement and carries its product and role; unless the role is
    empty, that node is named by its key and its parent is the product,
    which is the key and the name of a product node that holds the id as
    well and has no parent. Two entitlements share a role node only when
    they have the same product and the same role. *)
Theorem hierarchy_links (docs : list EntitlementDocument) (d : EntitlementDocument) :
  In d docs ->
  exists productNode roleNode,
    map_get (product_of d) (products (hierarchy_of docs)) = Some productNode
    /\ In (doc_id d) (node_ids productNode)
    /\ attr_name (ent_attributes productNode) = product_of d
    /\ attr_parent (ent_attributes productNode) = None
    /\ attr_parent (ent_attributes (newEntitlement d)) = Some (role_key_of d)
    /\ map_get (role_key_of d) (roles (hierarchy_of docs)) = Some roleNode
    /\ In (doc_id d) (node_ids roleNode)
    /\ attr_product (ent_attributes roleNode) = product_of d
    /\ attr_role (ent_attributes roleNode) = role (parseName (Some (doc_name d)))
    /\ (role (parseName (Some (doc_name d))) <> ""
        -> attr_name (ent_attributes roleNode) = role_key_of d
           /\ attr_parent (ent_attributes roleNode) = Some (product_of d)).
Proof. exact (hierarchy_link_facts docs d). Qed.

Lemma hierarchy_links_witness :
  exists productNode roleNode,
    map_get "finance" (products (hierarchy_of finance_raw)) = Some productNode
    /\ In "e2" (node_ids productNode)
    /\ attr_name (ent_attributes productNode) = "finance"
    /\ attr_parent (ent_attributes productNode) = None
    /\ attr_parent (ent_attributes
                      (newEntitlement (raw_entitlement "e2" "finance-test-approver" true)))
       = Some "finance-approver"
    /\ map_get "finance-approver" (roles (hierarchy_of finance_raw)) = Some roleNode
    /\ In "e2" (node_ids roleNode)
    /\ attr_product (ent_attributes roleNode) = "finance"
    /\ attr_role (ent_attributes roleNode) = "approver"
    /\ ("approver" <> ""
        -> attr_name (ent_attributes roleNode) = "finance-approver"
           /\ attr_parent (ent_attributes roleNode) = Some "finance").
Proof.
  exact (hierarchy_links finance_raw
           (raw_entitlement "e2" "finance-test-approver" true)
           (or_intror (or_introl eq_refl))).
Defined.

Section CompletedPass.
Variable P : Platform.

Lemma process_entitlement_returned (d : EntitlementDocument) (st st' : Hierarchy)
    (h h' : History) :
  process_entitlement P d st h = (Returned st', h') ->
  st' = {| products := products (upsert_nodes d st);
           roles := roles (upsert_nodes d st);
           entitlements := entitlements st ++ [newEntitlement d] |}.
Proof.
  unfold process_entitlement. intros Hrun.
  destruct (doc_requestable d); simpl in Hrun; run_step.
  - now inversion Hrun.
  - destruct (P h (PatchEntitlement (doc_id d))); now inversion Hrun.
Qed.

(** The state a completed loop ends in is the hierarchy of the search
    result together with one record per entitlement, in order. *)
Lemma process_loop_state (docs : list EntitlementDocument) :
  forall st h st' h',
    for_of_with docs (process_entitlement P) st h = (Returned st', h') ->
    products st' = products (fold_left (fun st d => upsert_nodes d st) docs st)
    /\ roles st' = roles (fold_left (fun st d => upsert_nodes d st) docs st)
    /\ entitlements st' = entitlements st ++ map newEntitlement docs.
Proof.
  induction docs as [|d docs IH]; intros st h st' h' Hrun; simpl in Hrun.
  - unfold ret in Hrun. inversion Hrun; subst. simpl. now rewrite app_nil_r.
  - unfold bind at 1 in Hrun.
    destruct (process_entitlement P d st h) as [[st1|e] h1] eqn:Hstep;
      [|discriminate].
    apply process_entitlement_returned in Hstep. apply IH in Hrun.
    destruct Hrun as (Hp & Hr & He). simpl.
    destruct (hierarchy_fold docs st1) as (Hp1 & Hr1 & _).
    destruct (hierarchy_fold docs (upsert_nodes d st)) as (Hp2 & Hr2 & _).
    rewrite Hp, Hr, He, Hp1, Hr1, Hp2, Hr2. subst st1. simpl.
    now rewrite <- app_assoc.
Qed.

End CompletedPass.

(** What a completed list-entitlements sends is a function of the search
    result alone: the product nodes in the order their products first
    appear, then the role nodes in the order their keys first appear, then
    one record per entitlement in the order of the search result. Nothing
    the platform answers to a flip or to an access profile call changes
    it. *)
Theorem stdEntitlementList_output
    (P : Platform) (conn : Connector) (docs : list EntitlementDocument)
    (h0 h' : History) :
  P h0 (SearchEntitlements (config_search conn)) = inr docs ->
  stdEntitlementList P conn h0 = (Returned tt, h') ->
  exists ev,
    h' = h0 ++ ev
    /\ sends ev
       = map (fun entry => OutEntitlement (snd entry)) (products (hierarchy_of docs))
         ++ map (fun entry => OutEntitlement (snd entry)) (roles (hierarchy_of docs))
         ++ map (fun d => OutEntitlement (newEntitlement d)) docs.
Proof.
  intros Hdocs Hrun.
  unfold stdEntitlementList in Hrun. unfold bind at 1, isc at 1 in Hrun.
  rewrite Hdocs in Hrun.
  destruct docs as [|first rest]; [discriminate|].
  unfold bind at 1 in Hrun.
  destruct (for_of_with (first :: rest) (process_entitlement P)
              {| products := []; roles := []; entitlements := [] |}
              (h0 ++ [EvCall (SearchEntitlements (config_search conn)) true]))
    as [[st1|e1] h2] eqn:Hloop; [|discriminate].
  pose proof (process_loop_state P _ _ _ _ _ Hloop) as (Hp & Hr & He).
  apply process_loop_events in Hloop as (ev1 & -> & S1 & _).
  destruct (emission_run P conn (doc_source first) st1
              ((h0 ++ [EvCall (SearchEntitlements (config_search conn)) true]) ++ ev1))
    as (ev2 & Hemit & S2 & _).
  rewrite Hemit in Hrun. inversion Hrun; subst.
  exists ([EvCall (SearchEntitlements (config_search conn)) true] ++ ev1 ++ ev2).
  split; [now rewrite <- !app_assoc|].
  rewrite !sends_app, S1, S2, Hp, Hr, He. simpl. now rewrite map_map.
Qed.

Lemma stdEntitlementList_output_witness :
  exists ev,
    snd (stdEntitlementList (tenant single_tenant) proxy_connector []) = [] ++ ev
    /\ sends ev
       = map (fun entry => OutEntitlement (snd entry))
             (products (hierarchy_of (t_raw single_tenant)))
         ++ map (fun entry => OutEntitlement (snd entry))
                (roles (hierarchy_of (t_raw single_tenant)))
         ++ map (fun d => OutEntitlement (newEntitlement d)) (t_raw single_tenant).
Proof.
  exact (stdEntitlementList_output (tenant single_tenant) proxy_connector
           (t_raw single_tenant) [] _ eq_refl eq_refl).
Defined.


(* ------------------------------------------------------------------ *)
(** ** What the handlers never do *)

Section Confinement.
Variable allowed : Event -> bool.

Lemma within_app (a b : History) :
  within allowed a -> within allowed b -> within allowed (a ++ b).
Proof. unfold within. intros Ha Hb. now rewrite forallb_app, Ha, Hb. Qed.

Lemma confined_ret {A : Type} (a : A) : confined allowed (ret a).
Proof.
  intros h o h' Hrun. unfold ret in Hrun. inversion Hrun; subst.
  exists []. now rewrite app_nil_r.
Qed.

Lemma confined_throw {A : Type} (e : Error) : confined allowed (@throw A e).
Proof.
  intros h o h' Hrun. unfold throw in Hrun. inversion Hrun; subst.
  exists []. now rewrite app_nil_r.
Qed.

Lemma confined_event {A : Type} (m : M A) (e : Event) :
  allowed e = true ->
  (forall h, snd (m h) = h ++ [e]) ->
  confined allowed m.
Proof.
  intros He Hm h o h' Hrun. exists [e]. split.
  - specialize (Hm h). rewrite Hrun in Hm. exact Hm.
  - unfold within. simpl. now rewrite He.
Qed.

Lemma confined_isc (P : Platform) (c : Call) :
  allowed (EvCall c true) = true -> allowed (EvCall c false) = true ->
  confined allowed (isc P c).
Proof.
  intros Ht Hf h o h' Hrun. unfold isc in Hrun.
  destruct (P h c); inversion Hrun; subst; eexists; (split; [reflexivity|]);
    unfold within; simpl; now rewrite ?Ht, ?Hf.
Qed.

Lemma confined_bind {A B : Type} (m : M A) (k : A -> M B) :
  confined allowed m -> (forall a, confined allowed (k a)) ->
  confined allowed (bind m k).
Proof.
  intros Hm Hk h o h' Hrun. unfold bind in Hrun.
  destruct (m h) as [[a|e] h1] eqn:Hstep; apply Hm in Hstep as (ev1 & -> & W1).
  - apply Hk in Hrun as (ev2 & -> & W2). exists (ev1 ++ ev2).
    split; [now rewrite app_assoc | now apply within_app].
  - inversion Hrun; subst. now exists ev1.
Qed.

Lemma confined_try_catch {A : Type} (m : M A) (handler : Error -> M A) :
  confined allowed m -> (forall e, confined allowed (handler e)) ->
  confined allowed (try_catch m handler).
Proof.
  intros Hm Hk h o h' Hrun. unfold try_catch in Hrun.
  destruct (m h) as [[a|e] h1] eqn:Hstep; apply Hm in Hstep as (ev1 & -> & W1).
  - inversion Hrun; subst. now exists ev1.
  - apply Hk in Hrun as (ev2 & -> & W2). exists (ev1 ++ ev2).
    split; [now rewrite app_assoc | now apply within_app].
Qed.

Lemma confined_for_of {A : Type} (l : list A) (body : A -> M unit) :
  (forall a, confined allowed (body a)) -> confined allowed (for_of l body).
Proof.
  intros Hbody. induction l as [|a l IH]; simpl.
  - apply confined_ret.
  - apply confined_bind; [apply Hbody | intros _; exact IH].
Qed.

Lemma confined_for_of_with {A S : Type} (l : list A) (body : A -> S -> M S) :
  (forall a s, confined allowed (body a s)) ->
  forall s, confined allowed (for_of_with l body s).
Proof.
  intros Hbody. induction l as [|a l IH]; intros s; simpl.
  - apply confined_ret.
  - apply confined_bind; [apply Hbody | intros s'; apply IH].
Qed.

End Confinement.

Lemma confined_run {A : Type} (allowed : Event -> bool) (m : M A) (h : History) :
  confined allowed m ->
  exists o ev, m h = (o, h ++ ev) /\ within allowed ev.
Proof.
  intros Hm. destruct (m h) as [o h'] eqn:Hrun.
  apply Hm in Hrun as (ev & -> & W). now exists o, ev.
Qed.

(** list-entitlements searches entitlements, flips entitlements, and sends
    entitlement records; it reads and writes access profiles only when the
    configuration asks for them and never makes one requestable. It never
    submits an access request, never waits, and sends no account record. *)
Theorem stdEntitlementList_confined
    (P : Platform) (conn : Connector) (h0 : History) :
  exists o ev,
    stdEntitlementList P conn h0 = (o, h0 ++ ev)
    /\ within (entitlement_list_event (config_createAccessProfile conn)) ev.
Proof.
  apply confined_run. unfold stdEntitlementList.
  apply confined_bind; [now apply confined_isc|].
  intros [|first rest]; [apply confined_throw|].
  assert (Hnode : forall src entry,
            confined (entitlement_list_event (config_createAccessProfile conn))
              (send_node P conn src entry)).
  { intros src entry. unfold send_node, sync_access_profile.
    apply confined_bind.
    - destruct (config_createAccessProfile conn) eqn:Hflag; [|apply confined_ret].
      apply confined_try_catch; [|intros e; apply confined_ret].
      apply confined_bind; [now apply confined_isc|].
      intros [ap|];
        (apply confined_bind; [now apply confined_isc | intros _; apply confined_ret]).
    - intros _. now apply (confined_event _ _ (EvSend (OutEntitlement (snd entry)))). }
  apply confined_bind.
  - apply confined_for_of_with. intros d st. unfold process_entitlement.
    apply confined_bind; [|intros _; apply confined_ret].
    destruct (negb (doc_requestable d)); [|apply confined_ret].
    apply confined_bind; [now apply confined_isc | intros _; apply confined_ret].
  - intros st. apply confined_bind; [apply confined_for_of; apply Hnode|].
    intros _. apply confined_bind; [apply confined_for_of; apply Hnode|].
    intros _. apply confined_for_of. intros e.
    now apply (confined_event _ _ (EvSend (OutEntitlement e))).
Qed.

Lemma createAccessRequest_confined (P : Platform) (conn : Connector)
    (identity : string) (names : list string) (requestType : AccessRequestType) :
  confined account_request_event (createAccessRequest P conn identity names requestType).
Proof.
  unfold createAccessRequest, getSourceEntitlements.
  apply confined_bind.
  - apply confined_for_of_with. intros v s. unfold add_source_entitlements.
    apply confined_bind; [now apply confined_isc | intros e; apply confined_ret].
  - intros ids. apply confined_try_catch; [now apply confined_isc|].
    intros _. apply confined_bind; [|intros _; now apply confined_isc].
    now apply (confined_event _ _ (EvSleep 60000)).
Qed.

(** create-account and update-account look things up, submit access
    requests, wait one minute at a time, and send account records. They
    never flip an entitlement and never touch an access profile. *)
Theorem account_operations_confined
    (P : Platform) (conn : Connector) (h0 : History) :
  (forall input,
     exists o ev,
       stdAccountCreate P conn input h0 = (o, h0 ++ ev)
       /\ within account_request_event ev)
  /\ (forall input,
        exists o ev,
          stdAccountUpdate P conn input h0 = (o, h0 ++ ev)
          /\ within account_request_event ev).
Proof.
  split; intros input; apply confined_run.
  - unfold stdAccountCreate.
    apply confined_bind; [now apply confined_isc|].
    intros [identity|]; [|apply confined_throw].
    apply confined_bind.
    + unfold getSourceEntitlements. apply confined_for_of_with.
      intros v s. unfold add_source_entitlements.
      apply confined_bind; [now apply confined_isc | intros e; apply confined_ret].
    + intros ids. apply confined_bind; [apply createAccessRequest_confined|].
      intros _. eapply confined_event; [|intros h; reflexivity]; reflexivity.
  - unfold stdAccountUpdate.
    apply confined_bind; [now apply confined_isc|].
    intros [account|]; [|apply confined_throw].
    apply confined_bind.
    + destruct (update_changes input) as [changes|]; [|apply confined_ret].
      apply confined_for_of_with. intros c acc. unfold process_change.
      apply confined_bind.
      * unfold assert. destruct (negb (is_set (chg_op c)));
          [apply confined_ret | apply confined_throw].
      * intros _. apply confined_bind; [apply createAccessRequest_confined|].
        intros _. destruct (operation_of (chg_op c)); apply confined_ret.
    + intros acc. cbv zeta.
      destruct (acct_entitlements account); [|apply confined_throw].
      eapply confined_event; [|intros h; reflexivity]; reflexivity.
Qed.

(* ------------------------------------------------------------------ *)
(** ** Further properties of the nodes and of their access profiles *)

Lemma map_get_In {V : Type} (k : string) (v : V) (m : list (string * V)) :
  NoDup (map fst m) -> In (k, v) m -> map_get k m = Some v.
Proof.
  induction m as [|[k2 v2] m IH]; intros Hnd Hin; [destruct Hin|].
  simpl in *. inversion Hnd as [|? ? Hnotin Hnd']; subst.
  destruct Hin as [Heq|Hin].
  - inversion Heq; subst. now rewrite String.eqb_refl.
  - destruct (String.eqb_spec k k2) as [->|Hne]; [|now apply IH].
    exfalso. apply Hnotin. change k2 with (fst (k2, v)). now apply in_map.
Qed.

Lemma hierarchy_nodes_plain (docs : list EntitlementDocument) (k : string)
    (n : Entitlement) :
  map_get k (products (hierarchy_of docs)) = Some n
  \/ map_get k (roles (hierarchy_of docs)) = Some n ->
  plain_node n.
Proof.
  destruct (hierarchy_fold docs {| products := []; roles := []; entitlements := [] |})
    as (Hfp & Hfr & _).
  fold (hierarchy_of docs) in Hfp, Hfr. simpl in Hfp, Hfr.
  assert (Hplain : forall p r, plain_node (buildParent p r)).
  { intros p r. unfold plain_node. simpl. now repeat split. }
  intros [Hget|Hget]; [rewrite Hfp in Hget | rewrite Hfr in Hget];
    (eapply (fold_upsert_inv _ _ plain_node) in Hget;
     [ exact Hget
     | intros id n0 Hn0; exact Hn0
     | intros d _; apply Hplain
     | intros n0 Hn0; discriminate Hn0 ]).
Qed.

(** Every product node and every role node of a hierarchy is identified
    by its name throughout (identity, uuid and id attribute), has the type
    entitlement and at least one id; a product node is named by its key. *)
Theorem hierarchy_nodes_wellformed
    (docs : list EntitlementDocument) (entry : string * Entitlement) :
  In entry (products (hierarchy_of docs)) \/ In entry (roles (hierarchy_of docs)) ->
  plain_node (snd entry)
  /\ node_ids (snd entry) <> []
  /\ (In entry (products (hierarchy_of docs))
      -> attr_name (ent_attributes (snd entry)) = fst entry).
Proof.
  destruct entry as [k n]. simpl.
  destruct (hierarchy_ids docs k) as (Hp & Hr & Hkp & Hkr).
  destruct (hierarchy_fold docs {| products := []; roles := []; entitlements := [] |})
    as (Hfp & _).
  fold (hierarchy_of docs) in Hfp. simpl in Hfp.
  intros Hin. split; [|split].
  - apply (hierarchy_nodes_plain docs k).
    destruct Hin as [Hin|Hin]; [left|right]; now apply map_get_In.
  - destruct Hin as [Hin|Hin]; apply map_get_In in Hin; try assumption.
    + rewrite Hin in Hp. simpl in Hp.
      destruct (members product_of k docs); [discriminate|].
      inversion Hp as [Hids]. rewrite Hids. discriminate.
    + rewrite Hin in Hr. simpl in Hr.
      destruct (members role_key_of k docs); [discriminate|].
      inversion Hr as [Hids]. rewrite Hids. discriminate.
  - intros Hin'. apply map_get_In in Hin'; [|assumption].
    rewrite Hfp in Hin'.
    eapply (fold_upsert_inv product_of (fun d => buildParent (product_of d) None)
              (fun n0 => attr_name (ent_attributes n0) = k)); [| | |exact Hin'].
    + intros id n0 Hn0. exact Hn0.
    + intros d Hd. exact Hd.
    + intros n0 Hn0. discriminate Hn0.
Qed.

Lemma hierarchy_nodes_wellformed_witness :
  plain_node (snd ("finance-viewer",
                   push_id "e3" (buildParent "finance" (Some "viewer"))))
  /\ node_ids (snd ("finance-viewer",
                    push_id "e3" (buildParent "finance" (Some "viewer")))) <> []
  /\ (In ("finance-viewer", push_id "e3" (buildParent "finance" (Some "viewer")))
         (products (hierarchy_of finance_raw))
      -> attr_name (ent_attributes
                      (snd ("finance-viewer",
                            push_id "e3" (buildParent "finance" (Some "viewer")))))
         = fst ("finance-viewer",
                push_id "e3" (buildParent "finance" (Some "viewer")))).
Proof.
  exact (hierarchy_nodes_wellformed finance_raw
           ("finance-viewer", push_id "e3" (buildParent "finance" (Some "viewer")))
           (or_intror (or_intror (or_introl eq_refl)))).
Defined.

(** An entitlement whose name has no segment at all gets a product node
    and a role node that are both named by the empty string: the role
    node, kept under the key "-", carries the name of the product node. *)
Theorem segmentless_name_nodes
    (docs : list EntitlementDocument) (d : EntitlementDocument) :
  In d docs ->
  role (parseName (Some (doc_name d))) = "" ->
  exists productNode roleNode,
    map_get "" (products (hierarchy_of docs)) = Some productNode
    /\ map_get "-" (roles (hierarchy_of docs)) = Some roleNode
    /\ ent_identity productNode = ""
    /\ ent_identity roleNode = ""
    /\ In (doc_id d) (node_ids productNode)
    /\ In (doc_id d) (node_ids roleNode).
Proof.
  intros Hin Hrole.
  destruct (parseName_shape (Some (doc_name d))) as (_ & _ & _ & Hre & Hep).
  pose proof (Hep (Hre Hrole)) as Hprod.
  assert (Hpk : product_of d = "") by exact Hprod.
  assert (Hrk : role_key_of d = "-").
  { unfold role_key_of. now rewrite Hprod, Hrole. }
  destruct (hierarchy_link_facts docs d Hin)
    as (productNode & roleNode & Hgp & Hip & Hnp & _ & _ & Hgr & Hir & Hrp & Hrr & _).
  rewrite Hpk in Hgp, Hnp. rewrite Hrk in Hgr.
  exists productNode, roleNode.
  assert (Hplainp : plain_node productNode)
    by (apply (hierarchy_nodes_plain docs ""); now left).
  assert (Hplainr : plain_node roleNode)
    by (apply (hierarchy_nodes_plain docs "-"); now right).
  destruct Hplainp as (Hidp & _). destruct Hplainr as (Hidr & _).
  assert (Hname : attr_name (ent_attributes roleNode) = "").
  { destruct (hierarchy_fold docs
                {| products := []; roles := []; entitlements := [] |})
      as (_ & Hfr & _).
    fold (hierarchy_of docs) in Hfr. simpl in Hfr. rewrite Hfr in Hgr.
    eapply (fold_upsert_inv role_key_of
              (fun d => buildParent (product_of d)
                          (Some (role (parseName (Some (doc_name d))))))
              (fun n => attr_name (ent_attributes n) = "")); [| | |exact Hgr].
    - intros id n Hn. exact Hn.
    - intros d' Hd'. rewrite <- Hrk in Hd'.
      apply role_key_of_unique in Hd' as [Hp' Hr'].
      simpl. rewrite Hr', Hrole, Hp', Hpk. reflexivity.
    - intros n Hn. discriminate Hn. }
  rewrite Hidp, Hidr, Hnp, Hname. now repeat split.
Qed.

Lemma segmentless_name_nodes_witness :
  exists productNode roleNode,
    map_get "" (products (hierarchy_of [raw_entitlement "e7" "--" true]))
    = Some productNode
    /\ map_get "-" (roles (hierarchy_of [raw_entitlement "e7" "--" true]))
       = Some roleNode
    /\ ent_identity productNode = ""
    /\ ent_identity roleNode = ""
    /\ In "e7" (node_ids productNode)
    /\ In "e7" (node_ids roleNode).
Proof.
  exact (segmentless_name_nodes [raw_entitlement "e7" "--" true]
           (raw_entitlement "e7" "--" true) (or_introl eq_refl) eq_refl).
Defined.




(* ------------------------------------------------------------------ *)
(** ** How long the account operations can wait *)

Lemma process_changes_budget (P : Platform) (conn : Connector) (account : Account)
    (changes : list AttributeChange) :
  forall acc h o h',
    for_of_with changes (process_change P conn account) acc h = (o, h') ->
    exists ev,
      h' = h ++ ev
      /\ List.length (sleeps ev) <= List.length changes
      /\ List.length (submissions ev) <= 2 * List.length changes.
Proof.
  induction changes as [|c changes IH]; intros acc h o h' Hrun; simpl in Hrun.
  - unfold ret in Hrun. inversion Hrun; subst. exists []. rewrite app_nil_r.
    simpl. repeat split; lia.
  - unfold bind at 1 in Hrun.
    destruct (is_set (chg_op c)) eqn:Hset.
    + rewrite process_change_set in Hrun by assumption.
      inversion Hrun; subst. exists []. rewrite app_nil_r. simpl. repeat split; lia.
    + destruct (process_change_request P conn account c acc h Hset) as [acc' Hstep].
      rewrite Hstep in Hrun.
      destruct (createAccessRequest P conn (acct_identityId account)
                  (flat (chg_value c)) (operation_of (chg_op c)) h)
        as [[resp|err] h1] eqn:Hreq;
        apply createAccessRequest_events in Hreq as (ev1 & -> & _ & L1 & D1 & _).
      * apply IH in Hrun as (ev2 & -> & D2 & L2).
        exists (ev1 ++ ev2).
        rewrite <- app_assoc, sleeps_app, submissions_app, !length_app.
        simpl in *. repeat split; lia.
      * inversion Hrun; subst. exists ev1. simpl. repeat split; lia.
Qed.

(** The retry budget: create-account waits at most once and submits at
    most twice; update-account waits at most once and submits at most
    twice for each change. *)
Theorem account_operations_budget
    (P : Platform) (conn : Connector) (h0 : History) :
  (forall input,
     exists o ev,
       stdAccountCreate P conn input h0 = (o, h0 ++ ev)
       /\ List.length (sleeps ev) <= 1
       /\ List.length (submissions ev) <= 2)
  /\ (forall input,
        exists o ev,
          stdAccountUpdate P conn input h0 = (o, h0 ++ ev)
          /\ List.length (sleeps ev) <= List.length (changes_of input)
          /\ List.length (submissions ev) <= 2 * List.length (changes_of input)).
Proof.
  split; intros input.
  - unfold stdAccountCreate.
    set (name := match create_name input with
                 | Some n => n
                 | None => create_identity input
                 end).
    unfold bind at 1, isc at 1.
    destruct (P h0 (GetIdentityByName name)) as [e|[identity|]].
    + exists (Thrown e), [EvCall (GetIdentityByName name) false].
      split; [reflexivity|]. cbn. lia.
    + unfold bind at 1.
      destruct (getSourceEntitlements P conn (flat (create_entitlements input))
                  (h0 ++ [EvCall (GetIdentityByName name) true]))
        as [[ids|e] h1] eqn:Hres;
        apply getSourceEntitlements_lookups in Hres as (ev1 & -> & Hev1);
        apply lookups_silent in Hev1 as (_ & D1 & L1 & _).
      * unfold bind at 1.
        destruct (createAccessRequest P conn (idn_id identity) ids GrantAccess
                    ((h0 ++ [EvCall (GetIdentityByName name) true]) ++ ev1))
          as [[resp|e] h2] eqn:Hreq;
          apply createAccessRequest_events in Hreq as (ev2 & -> & _ & L2 & D2 & _).
        -- exists (Returned tt),
             ([EvCall (GetIdentityByName name) true] ++ ev1 ++ ev2
              ++ [EvSend (OutAccount
                            (account_record name (flat (create_entitlements input))))]).
           unfold send. split; [now rewrite <- !app_assoc|].
           rewrite !sleeps_app, !submissions_app, !length_app, D1, L1. cbn. lia.
        -- exists (Thrown e), ([EvCall (GetIdentityByName name) true] ++ ev1 ++ ev2).
           split; [now rewrite <- !app_assoc|].
           rewrite !sleeps_app, !submissions_app, !length_app, D1, L1. cbn. lia.
      * exists (Thrown e), ([EvCall (GetIdentityByName name) true] ++ ev1).
        split; [now rewrite <- !app_assoc|].
        rewrite !sleeps_app, !submissions_app, !length_app, D1, L1. cbn. lia.
    + eexists; exists [EvCall (GetIdentityByName name) true].
      split; [reflexivity|]. cbn. lia.
  - unfold stdAccountUpdate.
    set (lookup := GetAccountBySource (update_identity input) (source_id conn)).
    unfold bind at 1, isc at 1.
    destruct (P h0 lookup) as [e|[account|]].
    + exists (Thrown e), [EvCall lookup false]. split; [reflexivity|]. cbn. lia.
    + unfold bind at 1. rewrite update_loop_of_input.
      destruct (for_of_with (changes_of input) (process_change P conn account) ([], [])
                  (h0 ++ [EvCall lookup true])) as [[acc|e] h1] eqn:Hloop;
        apply process_changes_budget in Hloop as (ev & -> & D & L).
      * cbv zeta. destruct (acct_entitlements account) as [existing|].
        -- unfold send. eexists.
           match goal with |- context [EvSend ?o] =>
             exists ([EvCall lookup true] ++ ev ++ [EvSend o]) end.
           split; [now rewrite <- !app_assoc|].
           rewrite !sleeps_app, !submissions_app, !length_app. cbn. lia.
        -- unfold throw. eexists. exists ([EvCall lookup true] ++ ev).
           split; [now rewrite <- !app_assoc|].
           rewrite !sleeps_app, !submissions_app, !length_app. cbn. lia.
      * exists (Thrown e), ([EvCall lookup true] ++ ev).
        split; [now rewrite <- !app_assoc|].
        rewrite !sleeps_app, !submissions_app, !length_app. cbn. lia.
    + eexists; exists [EvCall lookup true]. split; [reflexivity|]. cbn. lia.
Qed.


(* ------------------------------------------------------------------ *)
(** ** The order of the search result *)

Lemma filter_permutation {A : Type} (f : A -> bool) (l l' : list A) :
  Permutation l l' -> Permutation (filter f l) (filter f l').
Proof.
  induction 1 as [|x l l' Hp IH|x y l|l l' l'' H1 IH1 H2 IH2]; simpl.
  - constructor.
  - destruct (f x); [now constructor | assumption].
  - destruct (f x), (f y); try reflexivity. apply perm_swap.
  - now transitivity (filter f l').
Qed.

Lemma members_permutation (key : EntitlementDocument -> string) (k : string)
    (docs docs' : list EntitlementDocument) :
  Permutation docs docs' -> Permutation (members key k docs) (members key k docs').
Proof.
  intros Hp. unfold members. apply Permutation_map. now apply filter_permutation.
Qed.

(** The order of the search result decides the order of the ids in a node
    and nothing else: two search results with the same entitlements give
    nodes under the same keys, with the same ids up to their order. *)
Theorem hierarchy_order_independent
    (docs docs' : list EntitlementDocument) (k : string) :
  Permutation docs docs' ->
  match option_map node_ids (map_get k (products (hierarchy_of docs))),
        option_map node_ids (map_get k (products (hierarchy_of docs'))) with
  | Some ids, Some ids' => Permutation ids ids'
  | None, None => True
  | _, _ => False
  end
  /\ match option_map node_ids (map_get k (roles (hierarchy_of docs))),
           option_map node_ids (map_get k (roles (hierarchy_of docs'))) with
     | Some ids, Some ids' => Permutation ids ids'
     | None, None => True
     | _, _ => False
     end.
Proof.
  intros Hp.
  destruct (hierarchy_ids docs k) as (Hp1 & Hr1 & _).
  destruct (hierarchy_ids docs' k) as (Hp2 & Hr2 & _).
  rewrite Hp1, Hp2, Hr1, Hr2.
  pose proof (members_permutation product_of k docs docs' Hp) as M1.
  pose proof (members_permutation role_key_of k docs docs' Hp) as M2.
  split.
  - destruct (members product_of k docs) as [|x a],
             (members product_of k docs') as [|y b]; try exact I; try exact M1.
    + now apply Permutation_nil_cons in M1.
    + apply Permutation_sym in M1. now apply Permutation_nil_cons in M1.
  - destruct (members role_key_of k docs) as [|x a],
             (members role_key_of k docs') as [|y b]; try exact I; try exact M2.
    + now apply Permutation_nil_cons in M2.
    + apply Permutation_sym in M2. now apply Permutation_nil_cons in M2.
Qed.

Lemma hierarchy_order_independent_witness :
  match option_map node_ids (map_get "finance" (products (hierarchy_of finance_raw))),
        option_map node_ids
          (map_get "finance" (products (hierarchy_of (rev finance_raw)))) with
  | Some ids, Some ids' => Permutation ids ids'
  | None, None => True
  | _, _ => False
  end
  /\ match option_map node_ids (map_get "finance" (roles (hierarchy_of finance_raw))),
           option_map node_ids
             (map_get "finance" (roles (hierarchy_of (rev finance_raw)))) with
     | Some ids, Some ids' => Permutation ids ids'
     | None, None => True
     | _, _ => False
     end.
Proof.
  exact (hierarchy_order_independent finance_raw (rev finance_raw) "finance"
           (Permutation_rev finance_raw)).
Defined.
